(** * Perceptron training rules and one-against-rest classification

    A shallow embedding of [proj2/perceptron.py].

    Numbers.  The program computes on numpy [float64] arrays.  Here a
    number ([num]) is an exact rational or one of the IEEE special values
    [+inf], [-inf], [nan]; sums, products, quotients and comparisons treat
    the special values as IEEE 754 does (a comparison with [nan] is false,
    [0/0] and [inf - inf] are [nan]).  Rounding, overflow and the sign of
    zero are outside the model: finite results are exact.

    Arrays.  A one-dimensional array is a list of numbers; a
    two-dimensional array carries its column count next to its rows,
    because [samples.shape] is read even when the array has no row.

    Effects.  The module reads one piece of hidden state, the numpy random
    generator; it is threaded explicitly.  Exceptions are the left
    summand of a sum.  The [while True] and [cycle] loops run on fuel, one
    unit per pass; the termination theorems give the fuel that is always
    enough.  Logging and timing are left out: they feed nothing back. *)

From Stdlib Require Import List ZArith QArith Qabs Qpower Bool Lia Arith.
Import ListNotations.

Set Implicit Arguments.

(** ** Python-side scaffolding *)

Inductive exn : Type :=
| ValueError
| IndexError
| KeyError
| AssertionError
| AttributeError
| ZeroDivisionError.

Definition result (A : Type) : Type := (exn + A)%type.

Definition raise {A : Type} (e : exn) : result A := inl e.
Definition ret {A : Type} (a : A) : result A := inr a.

Definition bind {A B : Type} (m : result A) (k : A -> result B) : result B :=
  match m with
  | inl e => inl e
  | inr a => k a
  end.

Notation "x <- m ;; k" := (bind m (fun x => k))
  (at level 61, m at next level, right associativity).

(** [np.inf] as the initial value of a running minimum of counts. *)
Inductive ext (A : Type) : Type :=
| Inf : ext A
| Fin : A -> ext A.
Arguments Inf {A}.
Arguments Fin {A} _.

(** [len(errors) < best] *)
Definition nat_lt_ext (n : nat) (b : ext nat) : bool :=
  match b with
  | Inf => true
  | Fin m => (n <? m)%nat
  end.

(** A generic [while True] loop: the body either leaves through a [break]
    ([inl]) or hands the variables to the next pass ([inr]).  One unit of
    fuel pays for one execution of the body. *)
Fixpoint loop {S R : Type} (body : S -> R + S) (fuel : nat) (s : S) : option R :=
  match fuel with
  | O => None
  | Datatypes.S fuel' =>
      match body s with
      | inl r => Some r
      | inr s' => loop body fuel' s'
      end
  end.

(** ** Numbers *)

Inductive num : Type :=
| Num (q : Q)
| PosInf
| NegInf
| NaN.

(** [a < b] on rationals *)
Definition Qlt_bool (a b : Q) : bool := negb (Qle_bool b a).

(** An infinity of the sign a comparison with 0 gives; of no sign, [nan]. *)
Definition inf_of (c : comparison) : num :=
  match c with
  | Gt => PosInf
  | Lt => NegInf
  | Eq => NaN
  end.

Definition num_opp (a : num) : num :=
  match a with
  | Num x => Num (- x)
  | PosInf => NegInf
  | NegInf => PosInf
  | NaN => NaN
  end.

Definition num_abs (a : num) : num :=
  match a with
  | Num x => Num (Qabs x)
  | PosInf | NegInf => PosInf
  | NaN => NaN
  end.

(** [a + b] *)
Definition num_add (a b : num) : num :=
  match a, b with
  | NaN, _ | _, NaN => NaN
  | Num x, Num y => Num (x + y)
  | PosInf, NegInf | NegInf, PosInf => NaN
  | PosInf, _ | _, PosInf => PosInf
  | NegInf, _ | _, NegInf => NegInf
  end.

(** [a - b] *)
Definition num_sub (a b : num) : num := num_add a (num_opp b).

(** [a * b] *)
Definition num_mul (a b : num) : num :=
  match a, b with
  | NaN, _ | _, NaN => NaN
  | Num x, Num y => Num (x * y)
  | Num x, PosInf | PosInf, Num x => inf_of (x ?= 0)%Q
  | Num x, NegInf | NegInf, Num x => inf_of (CompOpp (x ?= 0)%Q)
  | PosInf, PosInf | NegInf, NegInf => PosInf
  | PosInf, NegInf | NegInf, PosInf => NegInf
  end.

(** [a / b], the zero divisor counted as positive (the divisors of the
    program are sums of squares and norms). *)
Definition num_div (a b : num) : num :=
  match a, b with
  | NaN, _ | _, NaN => NaN
  | Num x, Num y => if Qeq_bool y 0 then inf_of (x ?= 0)%Q else Num (x / y)
  | Num _, _ => Num 0
  | PosInf, Num y => match (y ?= 0)%Q with Lt => NegInf | _ => PosInf end
  | NegInf, Num y => match (y ?= 0)%Q with Lt => PosInf | _ => NegInf end
  | _, _ => NaN
  end.

(** [a ** 2] *)
Definition num_sqr (a : num) : num := num_mul a a.

(** [a <= b] *)
Definition num_le (a b : num) : bool :=
  match a, b with
  | NaN, _ | _, NaN => false
  | Num x, Num y => Qle_bool x y
  | NegInf, _ | _, PosInf => true
  | _, _ => false
  end.

(** [a < b] *)
Definition num_lt (a b : num) : bool :=
  match a, b with
  | NaN, _ | _, NaN => false
  | Num x, Num y => Qlt_bool x y
  | PosInf, _ | _, NegInf => false
  | _, _ => true
  end.

(** [a == b] *)
Definition num_eq (a b : num) : bool :=
  match a, b with
  | Num x, Num y => Qeq_bool x y
  | PosInf, PosInf | NegInf, NegInf => true
  | _, _ => false
  end.

Definition is_nan (a : num) : bool :=
  match a with
  | NaN => true
  | _ => false
  end.

(** The [float64] nearest to an integer, ties to the even mantissa: the
    integer itself up to 2^53 in absolute value, 53 significant bits
    beyond.  (Labels are machine integers, far below the overflow of
    [float64].) *)
Definition float64_of_Z (z : Z) : Z :=
  let a := Z.abs z in
  if (a <? 2 ^ 53)%Z then z
  else
    let e := (Z.log2 a - 52)%Z in
    let m := Z.shiftr a e in
    let r := (a mod 2 ^ e)%Z in
    let half := (2 ^ (e - 1))%Z in
    let m' :=
      if (r <? half)%Z then m
      else if (half <? r)%Z then (m + 1)%Z
      else if Z.even m then m else (m + 1)%Z in
    (Z.sgn z * (m' * 2 ^ e))%Z.

(** ** Arrays *)

Definition vec : Type := list num.

Record matrix : Type := Matrix {
  rows : list vec;
  features : nat
}.

(** What numpy guarantees of a two-dimensional array. *)
Definition wf_matrix (m : matrix) : Prop :=
  Forall (fun r => length r = features m) (rows m).

(** [samples.shape] *)
Definition shape (m : matrix) : nat * nat := (length (rows m), features m).

(** [np.ones((k,))] *)
Definition np_ones (k : nat) : vec := repeat (Num 1) k.

(** [a * b], [a + b] on arrays of one shape *)
Definition vmul (a b : vec) : vec := map (fun p => num_mul (fst p) (snd p)) (combine a b).
Definition vadd (a b : vec) : vec := map (fun p => num_add (fst p) (snd p)) (combine a b).

(** [a * c] for a scalar [c] *)
Definition vscale (a : vec) (c : num) : vec := map (fun v => num_mul v c) a.

(** [np.sum(a)] *)
Definition np_sum (a : vec) : num := fold_left num_add a (Num 0).

(** [np.sum(weights * y)], [np.dot(weights, y)] on arrays of one shape *)
Definition dot (a b : vec) : num := np_sum (vmul a b).

(** ** normalize_features *)

(** The row built for sample [i]: [result[i][1:] = samples[i]] on a row of
    ones, then [result[i] *= -1] when the label is not [cls]. *)
Definition normalize_row (cls : Z) (sample : vec) (label : Z) : vec :=
  let r := Num 1 :: sample in
  if negb (Z.eqb label cls) then vscale r (Num (-1)) else r.

(** [for i in range(n)] over the rows, reading [labels[i]]. *)
Fixpoint normalize_rows (cls : Z) (samples : list vec) (labels : list Z)
  : result (list vec) :=
  match samples with
  | [] => ret []
  | s :: samples' =>
      match labels with
      | [] => raise IndexError
      | l :: labels' =>
          rest <- normalize_rows cls samples' labels' ;;
          ret (normalize_row cls s l :: rest)
      end
  end.

Definition normalize_features (cls : Z) (samples : matrix) (labels : list Z)
  : result matrix :=
  let (n, features) := shape samples in
  rs <- normalize_rows cls (rows samples) labels ;;
  ret (Matrix rs (features + 1)).

(** ** The random generator

    [np.random] is a deterministic generator behind a hidden cursor: an
    infinite sequence of draws, each a finite number, and the position of
    the next one. *)

Record rng : Type := Rng {
  draws : nat -> Q;
  pos : nat
}.

(** The next [k] draws of a generator, as an array. *)
Definition drawn (g : rng) (k : nat) : vec :=
  map (fun i => Num (draws g i)) (seq (pos g) k).

(** [np.random.rand(k, 1).reshape((k,))]: the next [k] draws. *)
Definition np_random_rand (k : nat) (g : rng) : vec * rng :=
  (drawn g k, Rng (draws g) (pos g + k)).

(** ** The training rules *)

(** Which [break] (or exhausted iterator) ended a training loop. *)
Inductive fi_exit : Type :=
| FI_converged     (* len(errors) == 0 *)
| FI_cap           (* trial > 100000   *)
| FI_delta.        (* delta <= theta   *)

Inductive br_exit : Type :=
| BR_no_pass       (* cycle(range(0)) yields nothing *)
| BR_converged     (* len(errors) == 0 *)
| BR_cap           (* trial > 100000   *)
| BR_small.        (* approx(delta, 0, 1e-5) and approx(criterion, 0, 1e-5) *)

(** The local variables that live across passes. *)
Record fi_vars : Type := FiVars {
  fi_trial : Z;
  fi_weights : vec;
  fi_best : ext nat;
  fi_bestd : num;
  fi_bw : vec
}.

Record br_vars : Type := BrVars {
  br_trial : Z;
  br_weights : vec;
  br_best : ext nat;
  br_bd : num
}.

(** What a training loop leaves behind: the exit taken, the returned
    weights and the final value of [trial]. *)
Record trained (E : Type) : Type := Trained {
  exit_by : E;
  final_weights : vec;
  final_trial : Z
}.

(** [for k, y in enumerate(samples)] of [fixed_increment]: the running
    weights and the list of error samples. *)
Definition fi_visit (acc : vec * list vec) (y : vec) : vec * list vec :=
  let (weights, errors) := acc in
  let net := np_sum (vmul weights y) in
  if num_le net (Num 0) then (vadd weights y, errors ++ [y]) else (weights, errors).

Definition fi_pass (samples : list vec) (weights : vec) : vec * list vec :=
  fold_left fi_visit samples (weights, []).

(** The error set of one batch pass: [net <= margin]. *)
Definition br_errors (samples : list vec) (weights : vec) (margin : num) : list vec :=
  filter (fun y => num_le (np_sum (vmul weights y)) margin) samples.

(** [np.sum(x ** 2)] *)
Definition sumsq (x : vec) : num := np_sum (map num_sqr x).

(** [x * (margin - np.dot(weights, x)) / np.sum(x ** 2)]: on a row of
    zeros every coordinate is [0/0], that is [nan]. *)
Definition br_term (weights : vec) (margin : num) (x : vec) : vec :=
  let c := num_sub margin (dot weights x) in
  map (fun v => num_div v (sumsq x)) (vscale x c).

(** [np.sum([...], axis=0)] over a non-empty list of arrays of one shape. *)
Fixpoint sum_axis0 (k : nat) (terms : list vec) : vec :=
  match terms with
  | [] => repeat (Num 0) k
  | t :: terms' => vadd t (sum_axis0 k terms')
  end.

Section Rules.

(** Helpers of [proj2.util] and numpy's Euclidean norm, taken as they
    are called: [dist(a, b)], [approx(a, b, tol)], [np.linalg.norm(y)]. *)
Variable dist : vec -> vec -> num.
Variable approx : num -> num -> num -> bool.
Variable np_linalg_norm : vec -> num.

(** [criterion(weights, errors, margin)] *)
Definition criterion (weights : vec) (errors : list vec) (margin : num) : num :=
  let values :=
    map (fun y => num_sqr (num_div (num_sub (dot weights y) margin) (np_linalg_norm y)))
      errors in
  num_mul (Num (1 # 2)) (np_sum values).

(** One pass of the [while True] loop of [fixed_increment]. *)
Definition fi_body (samples : list vec) (theta : num) (s : fi_vars)
  : trained fi_exit + fi_vars :=
  let trial := (fi_trial s + 1)%Z in
  let old_weights := fi_weights s in
  let (weights, errors) := fi_pass samples (fi_weights s) in
  if (length errors =? 0)%nat then inl (Trained FI_converged weights trial)
  else
    let (best, bw) :=
      if nat_lt_ext (length errors) (fi_best s)
      then (Fin (length errors), old_weights)
      else (fi_best s, fi_bw s) in
    if (trial >? 100000)%Z then inl (Trained FI_cap bw trial)
    else
      let delta := dist weights old_weights in
      let bestd := if num_lt delta (fi_bestd s) then delta else fi_bestd s in
      if num_le delta theta then inl (Trained FI_delta weights trial)
      else inr (FiVars trial weights best bestd bw).

(** The variables before the first pass. *)
Definition fi_init (features : nat) : fi_vars :=
  let weights := np_ones features in
  FiVars (-1) weights Inf PosInf weights.

Definition fixed_increment_run (fuel : nat) (samples : matrix) (theta : num)
  : option (trained fi_exit) :=
  let (n, features) := shape samples in
  loop (fi_body (rows samples) theta) fuel (fi_init features).

(** [fixed_increment(samples, theta)] *)
Definition fixed_increment (fuel : nat) (samples : matrix) (theta : num) : option vec :=
  option_map (@final_weights fi_exit) (fixed_increment_run fuel samples theta).

(** One pass of the [for _ in cycle(range(n))] loop of
    [batch_relaxation]. *)
Definition br_body (samples : list vec) (rate margin : num) (s : br_vars)
  : trained br_exit + br_vars :=
  let weights := br_weights s in
  let trial := br_trial s in
  let errors := br_errors samples weights margin in
  if (length errors =? 0)%nat then inl (Trained BR_converged weights trial)
  else
    let terms := map (br_term weights margin) errors in
    let update := map (fun v => num_mul rate v) (sum_axis0 (length weights) terms) in
    let old_weights := weights in
    let weights := vadd weights update in
    if (trial >? 100000)%Z then inl (Trained BR_cap weights trial)
    else
      let best := if nat_lt_ext (length errors) (br_best s)
                  then Fin (length errors) else br_best s in
      let delta := dist old_weights weights in
      let bd := if num_lt delta (br_bd s) then delta else br_bd s in
      if approx delta (Num 0) (Num (1 # 100000))
         && approx (criterion old_weights errors margin) (Num 0) (Num (1 # 100000))
      then inl (Trained BR_small weights trial)
      else inr (BrVars (trial + 1) weights best bd).

Definition br_init (weights : vec) : br_vars := BrVars 0 weights Inf PosInf.

Definition batch_relaxation_run (fuel : nat) (samples : matrix)
    (rate margin theta : num) (g : rng)
  : option (result (trained br_exit) * rng) :=
  if negb (num_lt (Num 0) rate && num_lt rate (Num 2)) then Some (raise ValueError, g)
  else
    let (n, features) := shape samples in
    let (weights, g') := np_random_rand features g in
    match n with
    | O => Some (ret (Trained BR_no_pass weights 0), g')
    | _ =>
        match loop (br_body (rows samples) rate margin) fuel (br_init weights) with
        | None => None
        | Some r => Some (ret r, g')
        end
    end.

(** [batch_relaxation(samples, rate, margin, theta)] *)
Definition batch_relaxation (fuel : nat) (samples : matrix)
    (rate margin theta : num) (g : rng) : option (result vec * rng) :=
  match batch_relaxation_run fuel samples rate margin theta g with
  | None => None
  | Some (r, g') => Some (t <- r ;; ret (final_weights t), g')
  end.

End Rules.

(** ** The classifier object *)

Inductive Strategy : Type := OneAgainstRest | OneAgainstOther.

Inductive TrainingRule : Type := FixedIncrement | BatchRelaxation.

(** A Python [dict] from labels to weight arrays: insertion-ordered, one
    entry per key; assigning to a key already present keeps its place. *)
Definition dict : Type := list (Z * vec).

Fixpoint dict_get (d : dict) (k : Z) : option vec :=
  match d with
  | [] => None
  | (k', v) :: d' => if Z.eqb k' k then Some v else dict_get d' k
  end.

Fixpoint dict_set (k : Z) (v : vec) (d : dict) : dict :=
  match d with
  | [] => [(k, v)]
  | (k', v') :: d' => if Z.eqb k' k then (k, v) :: d' else (k', v') :: dict_set k v d'
  end.

Definition keys (d : dict) : list Z := map fst d.

(** An instance.  [weights] is [None] when the object has no such
    attribute, which is what [hasattr(self, "weights")] asks. *)
Record Perceptron : Type := MkPerceptron {
  strategy : Strategy;
  rule : TrainingRule;
  weights : option dict;
  learning_rate : Q -> Q
}.

(** [make_learning_rate(rate)] *)
Definition make_learning_rate (rate : Q) : Q -> Q := fun _ => rate.

(** [Perceptron.__init__] *)
Definition init (rule : TrainingRule) (strategy : Strategy) (learn_rate : option (Q -> Q))
  : Perceptron :=
  MkPerceptron strategy rule (Some [])
    (match learn_rate with
     | None => make_learning_rate (1 # 100)
     | Some f => f
     end).

(** [np.unique(labels)]: the distinct values in increasing order. *)
Fixpoint insert_unique (x : Z) (l : list Z) : list Z :=
  match l with
  | [] => [x]
  | y :: l' =>
      if (x <? y)%Z then x :: y :: l'
      else if (x =? y)%Z then y :: l'
      else y :: insert_unique x l'
  end.

Definition np_unique (labels : list Z) : list Z :=
  fold_right insert_unique [] labels.

Section Model.

Variable dist : vec -> vec -> num.
Variable approx : num -> num -> num -> bool.
Variable np_linalg_norm : vec -> num.

(** [self.rule.method(normalized, debug=True)]: the rule's function at
    its default arguments. *)
Definition rule_method (r : TrainingRule) (fuel : nat) (normalized : matrix) (g : rng)
  : option (result vec * rng) :=
  match r with
  | FixedIncrement =>
      option_map (fun w => (ret w, g))
        (fixed_increment dist fuel normalized (Num (3 # 1000000)))
  | BatchRelaxation =>
      batch_relaxation dist approx np_linalg_norm fuel normalized
        (Num (2 # 100)) (Num (3 # 2)) (Num (1 # 1000)) g
  end.

(** The body of [for i, label in enumerate(np.unique(labels))] in
    [Perceptron.train], over the labels still to come.  The object and the
    generator are handed back also when an exception leaves the loop. *)
Fixpoint train_loop (fuel : nat) (samples : matrix) (labels : list Z)
    (todo : list Z) (p : Perceptron) (g : rng)
  : option (result unit * Perceptron * rng) :=
  match todo with
  | [] => Some (ret tt, p, g)
  | label :: todo' =>
      match normalize_features label samples labels with
      | inl e => Some (raise e, p, g)
      | inr normalized =>
          match rule_method (rule p) fuel normalized g with
          | None => None
          | Some (inl e, g') => Some (raise e, p, g')
          | Some (inr w, g') =>
              match weights p with
              | None => Some (raise AttributeError, p, g')
              | Some d =>
                  train_loop fuel samples labels todo'
                    (MkPerceptron (strategy p) (rule p) (Some (dict_set label w d))
                       (learning_rate p)) g'
              end
          end
      end
  end.

(** [Perceptron.train(samples, labels)] *)
Definition train (fuel : nat) (p : Perceptron) (samples : matrix) (labels : list Z)
    (g : rng) : option (result unit * Perceptron * rng) :=
  train_loop fuel samples labels (np_unique labels) p g.

End Model.

(** [np.dot(a, x)] on one-dimensional arrays whose shapes may differ. *)
Definition np_dot (a x : vec) : result num :=
  if (length a =? length x)%nat then ret (dot a x) else raise ValueError.

(** [a[0]] *)
Definition index0 (a : vec) : result num :=
  match a with
  | [] => raise IndexError
  | a0 :: _ => ret a0
  end.

(** A label as the [float64] score table holds it. *)
Definition label_value (label : Z) : num := Num (inject_Z (float64_of_Z label)).

(** One row [[label, np.dot(a[1:], x) + a[0]]] of the score table. *)
Definition score_row (x : vec) (entry : Z * vec) : result (num * num) :=
  let (label, a) := entry in
  d <- np_dot (tl a) x ;;
  a0 <- index0 a ;;
  ret (label_value label, num_add d a0).

Fixpoint score_table (x : vec) (d : dict) : result (list (num * num)) :=
  match d with
  | [] => ret []
  | entry :: d' =>
      r <- score_row x entry ;;
      rs <- score_table x d' ;;
      ret (r :: rs)
  end.

(** [values[:, 1]]: an empty list makes a one-dimensional array, which
    cannot be indexed by two subscripts. *)
Definition column1 (values : list (num * num)) : result (list num) :=
  match values with
  | [] => raise IndexError
  | _ => ret (map snd values)
  end.

(** [np.argmax] past the first element: a value that is not at or below
    the best so far replaces it, and a [nan] ends the scan. *)
Fixpoint argmax_from (l : list num) (i besti : nat) (bestv : num) : nat :=
  match l with
  | [] => besti
  | v :: l' =>
      if negb (num_le v bestv)
      then if is_nan v then i else argmax_from l' (S i) i v
      else argmax_from l' (S i) besti bestv
  end.

(** [np.argmax]: the index of the first [nan] if there is one, of the
    first greatest value otherwise. *)
Definition np_argmax (l : list num) : result nat :=
  match l with
  | [] => raise ValueError
  | v :: l' => ret (if is_nan v then O else argmax_from l' 1 0 v)
  end.

(** The body of [for x in data] in [iter_classify], with [debug] off. *)
Definition classify_sample (d : dict) (x : vec) : result num :=
  values <- score_table x d ;;
  col <- column1 values ;;
  best <- np_argmax col ;;
  match nth_error values best with
  | None => raise IndexError
  | Some row => ret (fst row)
  end.

Fixpoint classify_all (d : dict) (data : list vec) : result (list num) :=
  match data with
  | [] => ret []
  | x :: data' =>
      c <- classify_sample d x ;;
      cs <- classify_all d data' ;;
      ret (c :: cs)
  end.

(** [list(self.iter_classify(data))]: the generator's [assert] runs when
    the first value is asked for, then one value per sample. *)
Definition iter_classify (p : Perceptron) (data : list vec) : result (list num) :=
  match weights p with
  | None => raise AssertionError
  | Some d => classify_all d data
  end.

(** [Perceptron.classify(data)] *)
Definition classify (p : Perceptron) (data : matrix) : result (list num) :=
  iter_classify p (rows data).

(** [zip(labels, self.iter_classify(samples))] counted: [zip] asks
    [labels] first and stops at the first exhausted side; [true == classf]
    compares the integer label, as a [float64], with the classified value. *)
Fixpoint count_correct (d : dict) (labels : list Z) (data : list vec) (correct : nat)
  : result nat :=
  match labels, data with
  | truth :: labels', x :: data' =>
      classf <- classify_sample d x ;;
      count_correct d labels' data'
        (if num_eq (label_value truth) classf then S correct else correct)
  | _, _ => ret correct
  end.

(** [Perceptron.test(samples, labels)]: the accuracy it prints. *)
Definition test (p : Perceptron) (samples : matrix) (labels : list Z) : result Q :=
  correct <-
    match labels with
    | [] => ret O
    | _ =>
        match weights p with
        | None => raise AssertionError
        | Some d => count_correct d labels (rows samples) O
        end
    end ;;
  let total := fst (shape samples) in
  match total with
  | O => raise ZeroDivisionError
  | _ =>
      match weights p with
      | None => raise AttributeError
      | Some _ => ret ((inject_Z (Z.of_nat correct) / inject_Z (Z.of_nat total)) * 100)%Q
      end
  end.

(** [perceptron_criterion(weights, errors)]: the sum of
    [-1 * np.vdot(weights, y)] over the error samples. *)
Definition perceptron_criterion (weights : vec) (errors : list vec) : num :=
  np_sum (map (fun y => num_mul (Num (-1)) (dot weights y)) errors).

(** * Reference definitions

    Definitions that follow the written description rather than the
    code, for comparison with the code above. *)

(** The row of sample [i] as described: the sample with a 1 in front,
    negated throughout when the label is not the target. *)
Definition augmented_signed (cls : Z) (sample : vec) (label : Z) : vec :=
  if Z.eqb label cls then Num 1 :: sample else map num_opp (Num 1 :: sample).

(** The weights at the start of pass [k] of the fixed-increment rule when
    no pass stops it, and the number of errors pass [k] then makes. *)
Fixpoint fi_weights_at (samples : list vec) (features k : nat) : vec :=
  match k with
  | O => np_ones features
  | Datatypes.S k' => fst (fi_pass samples (fi_weights_at samples features k'))
  end.

Definition fi_errors_at (samples : list vec) (features k : nat) : nat :=
  length (snd (fi_pass samples (fi_weights_at samples features k))).

(** [j] is the first of the passes [0 .. n-1] with the least error count:
    strictly fewer errors than every earlier pass, no more than any. *)
Definition first_least (e : nat -> nat) (j n : nat) : Prop :=
  (j < n)%nat
  /\ (forall i, (i < j)%nat -> (e j < e i)%nat)
  /\ (forall i, (i < n)%nat -> (e j <= e i)%nat).

(** The score of a sample under one weight array as described: the
    non-bias coordinates against the raw features, plus the bias. *)
Definition score (a x : vec) : num := num_add (dot (tl a) x) (hd (Num 0) a).

(** Strictly increasing, so without repetition. *)
Fixpoint increasing (l : list Z) : Prop :=
  match l with
  | [] => True
  | x :: l' => (forall y, In y l' -> (x < y)%Z) /\ increasing l'
  end.

(** The labels of [new], in order, that are not keys yet. *)
Definition fresh_keys (old new : list Z) : list Z :=
  filter (fun l => negb (existsb (Z.eqb l) old)) new.

(** The passes [0 .. k-1] all went on: each made an error and did not
    have [delta <= theta]. *)
Definition fi_kept_going (dist : vec -> vec -> num) (theta : num)
    (samples : list vec) (features k : nat) : Prop :=
  forall i, (i < k)%nat ->
    (0 < fi_errors_at samples features i)%nat
    /\ num_le (dist (fi_weights_at samples features (Datatypes.S i))
                    (fi_weights_at samples features i)) theta = false.

(** What the variables of [fixed_increment] hold after [k] passes that all
    went on: the counter, the current weights, and in [best] and [bw] the
    first pass of least error count among those made. *)
Definition fi_after (dist : vec -> vec -> num) (theta : num)
    (samples : list vec) (features k : nat) (s : fi_vars) : Prop :=
  fi_trial s = (Z.of_nat k - 1)%Z
  /\ (Z.of_nat k <= 100001)%Z
  /\ fi_weights s = fi_weights_at samples features k
  /\ ((k = O /\ fi_best s = Inf)
      \/ exists j,
           first_least (fi_errors_at samples features) j k
           /\ fi_best s = Fin (fi_errors_at samples features j)
           /\ fi_bw s = fi_weights_at samples features j)
  /\ fi_kept_going dist theta samples features k.

(** The per-class runs of one training call as described: for each label
    in turn, the rule applied to the matrix normalized for that label,
    starting from the random generator the previous run left; the labels
    with the weights returned, and the generator after the last run.
    [None] when a run does not return weights. *)
Fixpoint class_runs (dist : vec -> vec -> num) (approx : num -> num -> num -> bool)
    (norm : vec -> num) (fuel : nat) (r : TrainingRule) (samples : matrix)
    (labels todo : list Z) (g : rng) : option (list (Z * vec) * rng) :=
  match todo with
  | [] => Some ([], g)
  | label :: todo' =>
      match normalize_features label samples labels with
      | inl _ => None
      | inr normalized =>
          match rule_method dist approx norm r fuel normalized g with
          | Some (inr w, g') =>
              match class_runs dist approx norm fuel r samples labels todo' g' with
              | Some (runs, g'') => Some ((label, w) :: runs, g'')
              | None => None
              end
          | _ => None
          end
      end
  end.

(** Where [np.argmax] lands in a list: on its first [nan], or, when it
    has none, on its first greatest value. *)
Definition argmax_at (l : list num) (i : nat) : Prop :=
  exists v,
    nth_error l i = Some v
    /\ ((is_nan v = true
         /\ forall k u, (k < i)%nat -> nth_error l k = Some u -> is_nan u = false)
        \/ ((forall k u, nth_error l k = Some u -> num_le u v = true)
            /\ forall k u, (k < i)%nat -> nth_error l k = Some u -> num_lt u v = true)).

(** A number that is not below zero: a rational at least 0, [+inf], or
    [nan]. *)
Definition not_negative (a : num) : Prop :=
  match a with
  | Num q => (0 <= q)%Q
  | PosInf | NaN => True
  | NegInf => False
  end.

(** * Concrete helpers for the examples

    [proj2.util] is not among the sources embedded here; the examples run the
    rules with a distance, a closeness test and a norm of their own. *)

(** The sum of the absolute coordinate differences. *)
Definition manhattan (a b : vec) : num :=
  np_sum (map (fun p => num_abs (num_sub (fst p) (snd p))) (combine a b)).

(** [|a - b| <= tol] *)
Definition within (a b tol : num) : bool := num_le (num_abs (num_sub a b)) tol.

(** The sum of the absolute coordinates. *)
Definition norm1 (a : vec) : num := np_sum (map num_abs a).

(** An array and a matrix of finite numbers. *)
Definition qv (l : list Q) : vec := map Num l.
Definition qm (rs : list (list Q)) (columns : nat) : matrix := Matrix (map qv rs) columns.

(** A generator whose every draw is [q]. *)
Definition constant_rng (q : Q) : rng := Rng (fun _ => q) 0.

(** One-dimensional points 2 and 0 of class 1 and 1 of class 0, augmented
    for class 1: no line separates them. *)
Definition overlapping : matrix := qm [[1; 2]; [1; 0]; [-1; -1]]%Q 2.

(** Three trained classes; on the sample [[1]] the first and the last
    score 1 and the middle one scores 1 as well. *)
Definition tied_model : dict :=
  [(3%Z, qv [0; 1]%Q); (5%Z, qv [1; 0]%Q); (7%Z, qv [0; 1]%Q)].

(** One class whose label, 2^53 + 1, is not a [float64]. *)
Definition wide_label_model : dict := [(9007199254740993%Z, qv [1; 0]%Q)].

(** Two classes; the second scores [nan] on a sample whose feature is
    infinite. *)
Definition nan_score_model : dict := [(3%Z, qv [1; 1]%Q); (5%Z, qv [1; 0]%Q)].

(** The one-dimensional points 0 and 2. *)
Definition two_points : matrix := qm [[0]; [2]]%Q 1.

(** A model trained once on [two_points] with the labels 0 and 1. *)
Definition trained_once : Perceptron :=
  MkPerceptron OneAgainstRest FixedIncrement
    (Some [(0%Z, qv [1; -1]%Q); (1%Z, qv [-1; 1]%Q)]) (make_learning_rate (1 # 100)).

(** The same model after a second call with the labels 2 and 3. *)
Definition trained_twice : Perceptron :=
  MkPerceptron OneAgainstRest FixedIncrement
    (Some [(0%Z, qv [1; -1]%Q); (1%Z, qv [-1; 1]%Q);
           (2%Z, qv [1; -1]%Q); (3%Z, qv [-1; 1]%Q)])
    (make_learning_rate (1 # 100)).

(** The points 0 (of the class) and 2 (of another), augmented: a line
    separates them. *)
Definition separable : matrix := qm [[1; 0]; [-1; -2]]%Q 2.

(** A single sample that the all-ones weights already put on the positive
    side. *)
Definition already_positive : matrix := qm [[1; 3]]%Q 2.

(** A matrix of no row and three columns. *)
Definition no_rows : matrix := Matrix [] 3.

(** One augmented sample. *)
Definition one_sample : matrix := qm [[1; 1]]%Q 2.


(** Three one-dimensional points. *)
Definition three_points : matrix := qm [[2]; [0]; [1]]%Q 1.

(** Two augmented samples far on the positive side. *)
Definition far_augmented : matrix := qm [[1; 10]; [1; 20]]%Q 2.

(** A mapping whose second weight array is one coordinate too long for a
    one-dimensional sample. *)
Definition misfit_model : dict :=
  [(3%Z, qv [0; 1]%Q); (5%Z, qv [1; 0; 2]%Q)].

(** Two one-dimensional points far on the positive side. *)
Definition far_points : matrix := qm [[10]; [20]]%Q 1.

(** The model the batch rule leaves on [far_points], all of class 7,
    when every draw is one half. *)
Definition trained_far : Perceptron :=
  MkPerceptron OneAgainstRest BatchRelaxation
    (Some [(7%Z, qv [1 # 2; 1 # 2]%Q)]) (make_learning_rate (1 # 100)).


(** * Properties *)

(** ** The loop driver *)

Section LoopFacts.

Variables (S R : Type) (body : S -> R + S).

(** A loop that ends, ends through a [break] of its body, taken in a
    state that satisfies every invariant of the body. *)
Lemma loop_invariant (P : S -> Prop) :
  (forall s s', P s -> body s = inr s' -> P s') ->
  forall fuel s r, P s -> loop body fuel s = Some r ->
  exists s', P s' /\ body s' = inl r.
Proof.
  intros Hstep fuel.
  induction fuel as [|fuel IH]; intros s r Hs Hrun; simpl in Hrun.
  - discriminate.
  - destruct (body s) as [r0|s1] eqn:Hb.
    + injection Hrun as <-. exists s. split; assumption.
    + apply (IH s1 r); [eapply Hstep; eassumption | assumption].
Qed.

(** A measure that every continuing pass lowers bounds the passes. *)
Lemma loop_terminates (P : S -> Prop) (mu : S -> nat) :
  (forall s s', P s -> body s = inr s' -> P s' /\ (mu s' < mu s)%nat) ->
  forall fuel s, P s -> (mu s < fuel)%nat -> exists r, loop body fuel s = Some r.
Proof.
  intros Hstep fuel.
  induction fuel as [|fuel IH]; intros s Hs Hmu.
  - lia.
  - simpl. destruct (body s) as [r0|s1] eqn:Hb.
    + exists r0. reflexivity.
    + destruct (Hstep s s1 Hs Hb) as [Hs1 Hlt].
      apply IH; [assumption | lia].
Qed.

(** More fuel never changes a result. *)
Lemma loop_fuel_mono :
  forall fuel fuel' s r, (fuel <= fuel')%nat ->
  loop body fuel s = Some r -> loop body fuel' s = Some r.
Proof.
  induction fuel as [|fuel IH]; intros fuel' s r Hle Hrun; simpl in Hrun.
  - discriminate.
  - destruct fuel' as [|fuel']; [lia|]. simpl.
    destruct (body s) as [r0|s1]; [assumption|].
    apply IH; [lia | assumption].
Qed.

End LoopFacts.

(** ** Comparisons *)

Lemma Qle_bool_false_lt (a b : Q) : Qle_bool a b = false -> (b < a)%Q.
Proof.
  intros H. apply Qnot_le_lt. intros Hle.
  apply Qle_bool_iff in Hle. congruence.
Qed.

Lemma Qlt_bool_true (a b : Q) : Qlt_bool a b = true <-> (a < b)%Q.
Proof.
  unfold Qlt_bool. split.
  - intros H. apply Qle_bool_false_lt. now apply negb_true_iff in H.
  - intros H. apply negb_true_iff.
    destruct (Qle_bool b a) eqn:E; [|reflexivity].
    apply Qle_bool_iff in E. exfalso. exact (Qlt_not_le _ _ H E).
Qed.

Lemma Qlt_bool_false (a b : Q) : Qlt_bool a b = false <-> (b <= a)%Q.
Proof.
  unfold Qlt_bool. rewrite negb_false_iff. apply Qle_bool_iff.
Qed.

(** A number strictly below another is not at or above it. *)
Lemma num_lt_not_le (a b : num) : num_lt a b = true -> num_le b a = false.
Proof.
  destruct a as [x| | |], b as [y| | |]; cbn; try discriminate; try reflexivity.
  unfold Qlt_bool. intros H. now apply negb_true_iff in H.
Qed.

(** What is not at or below, and is no [nan] either, is strictly above. *)
Lemma num_not_le_lt (a b : num) :
  num_le a b = false -> is_nan a = false -> is_nan b = false -> num_lt b a = true.
Proof.
  destruct a as [x| | |], b as [y| | |]; cbn; try discriminate; try reflexivity.
  unfold Qlt_bool. intros H _ _. now rewrite H.
Qed.

(** [v * -1] is the opposite of [v], numerator and denominator alike. *)
Lemma Qmult_m1 (v : Q) : (v * (-1))%Q = Qopp v.
Proof.
  destruct v as [n d]. unfold Qmult, Qopp. simpl.
  rewrite Pos.mul_1_r. f_equal. lia.
Qed.

Lemma num_mul_m1 (v : num) : num_mul v (Num (-1)) = num_opp v.
Proof.
  destruct v as [x| | |]; cbn; try reflexivity.
  now rewrite Qmult_m1.
Qed.

Lemma vscale_m1 (a : vec) : vscale a (Num (-1)) = map num_opp a.
Proof.
  unfold vscale. apply map_ext. intros v. apply num_mul_m1.
Qed.

(** ** normalize_features *)

Lemma normalize_row_spec (cls : Z) (s : vec) (l : Z) :
  normalize_row cls s l = augmented_signed cls s l.
Proof.
  unfold normalize_row, augmented_signed.
  destruct (Z.eqb l cls); simpl negb; cbv iota; [reflexivity|].
  apply vscale_m1.
Qed.

Lemma normalize_rows_spec (cls : Z) :
  forall (samples : list vec) (labels : list Z),
  length labels = length samples ->
  normalize_rows cls samples labels
  = inr (map (fun p => augmented_signed cls (fst p) (snd p)) (combine samples labels)).
Proof.
  induction samples as [|s samples IH]; intros labels Hlen.
  - reflexivity.
  - destruct labels as [|l labels]; [discriminate|].
    simpl in Hlen. injection Hlen as Hlen.
    simpl. rewrite (IH labels Hlen). simpl.
    unfold ret. now rewrite normalize_row_spec.
Qed.

Lemma nth_error_combine (A B : Type) :
  forall (l : list A) (l' : list B) i a b,
  nth_error l i = Some a -> nth_error l' i = Some b ->
  nth_error (combine l l') i = Some (a, b).
Proof.
  induction l as [|x l IH]; intros l' i a b Ha Hb.
  - destruct i; discriminate.
  - destruct l' as [|y l']; [destruct i; discriminate|].
    destruct i as [|i]; simpl in *.
    + congruence.
    + now apply IH.
Qed.

(** C5.  [normalize_features] on an n-row matrix and n labels returns n
    rows in the input order and one more column; row [i] is the sample with
    a leading 1 when [labels[i]] is the target label and that whole vector
    negated otherwise, so every row starts with 1 or -1. *)
Theorem normalize_features_rows (cls : Z) (samples : matrix) (labels : list Z) :
  length labels = length (rows samples) ->
  exists out,
    normalize_features cls samples labels = inr out
    /\ length (rows out) = length (rows samples)
    /\ features out = (features samples + 1)%nat
    /\ (forall i s l,
          nth_error (rows samples) i = Some s -> nth_error labels i = Some l ->
          nth_error (rows out) i
          = Some (if Z.eqb l cls then Num 1 :: s else map num_opp (Num 1 :: s)))
    /\ (forall r, In r (rows out) ->
          hd_error r = Some (Num 1) \/ hd_error r = Some (Num (-1))).
Proof.
  intros Hlen.
  unfold normalize_features, shape.
  rewrite (normalize_rows_spec cls (rows samples) labels Hlen).
  simpl. eexists. split; [reflexivity|]. simpl.
  split; [|split; [reflexivity|split]].
  - rewrite length_map, length_combine. lia.
  - intros i s l Hs Hl.
    rewrite nth_error_map, (nth_error_combine _ _ _ Hs Hl). reflexivity.
  - intros r Hr. apply in_map_iff in Hr as [[s l] [<- _]].
    unfold augmented_signed. simpl. destruct (Z.eqb l cls); [left|right]; reflexivity.
Qed.

Lemma normalize_features_rows_witness :
  exists out,
    normalize_features 1 three_points [1; 1; 0]%Z = inr out
    /\ rows out = rows overlapping.
Proof.
  destruct (@normalize_features_rows 1 three_points [1; 1; 0]%Z eq_refl)
    as [out [Hout _]].
  exists out. split; [exact Hout|].
  vm_compute in Hout. injection Hout as <-. reflexivity.
Defined.

(** ** fixed_increment on no sample *)

(** C10.  On a matrix of zero rows and [c] columns [fixed_increment]
    returns the all-ones vector of length [c]: its first pass makes no
    error and leaves the loop with the initial weights. *)
Theorem fixed_increment_no_rows (dist : vec -> vec -> num) (c fuel : nat) (theta : num) :
  fixed_increment dist (Datatypes.S fuel) (Matrix [] c) theta = Some (np_ones c)
  /\ fixed_increment_run dist (Datatypes.S fuel) (Matrix [] c) theta
     = Some (Trained FI_converged (np_ones c) 0)
  /\ length (np_ones c) = c.
Proof.
  split; [|split].
  - reflexivity.
  - reflexivity.
  - apply repeat_length.
Qed.

(** ** batch_relaxation *)

(** C3.  A rate at or below 0, or at or above 2 (or no number at all),
    makes [batch_relaxation] raise [ValueError] whatever the fuel, with the
    random generator where it was: the weights have not been drawn. *)
Theorem batch_relaxation_invalid_rate
    (dist : vec -> vec -> num) (approx : num -> num -> num -> bool) (norm : vec -> num)
    (fuel : nat) (samples : matrix) (rate margin theta : num) (g : rng) :
  num_le rate (Num 0) = true \/ num_le (Num 2) rate = true \/ rate = NaN ->
  batch_relaxation dist approx norm fuel samples rate margin theta g
  = Some (raise ValueError, g).
Proof.
  intros Hrate.
  unfold batch_relaxation, batch_relaxation_run.
  assert (Hguard : num_lt (Num 0) rate && num_lt rate (Num 2) = false).
  { apply andb_false_iff. destruct Hrate as [H|[H|H]].
    - left. destruct (num_lt (Num 0) rate) eqn:E; [|reflexivity].
      apply num_lt_not_le in E. congruence.
    - right. destruct (num_lt rate (Num 2)) eqn:E; [|reflexivity].
      apply num_lt_not_le in E. congruence.
    - subst. left. reflexivity. }
  rewrite Hguard. reflexivity.
Qed.

Lemma batch_relaxation_invalid_rate_witness :
  batch_relaxation manhattan within norm1 0 overlapping (Num 2) (Num (3 # 2)) (Num (1 # 1000))
    (constant_rng 0)
  = Some (raise ValueError, constant_rng 0).
Proof.
  apply batch_relaxation_invalid_rate. right. left. reflexivity.
Defined.







(** ** The passes of fixed_increment *)

Section FixedIncrement.

Variable dist : vec -> vec -> num.
Variable samples : list vec.
Variable theta : num.

(** [fi_body] with the pass named once and the two tracked variables
    read off the same test. *)
Lemma fi_body_eq (s : fi_vars) :
  fi_body dist samples theta s =
  let p := fi_pass samples (fi_weights s) in
  let e := length (snd p) in
  let trial := (fi_trial s + 1)%Z in
  let lower := nat_lt_ext e (fi_best s) in
  if (e =? 0)%nat then inl (Trained FI_converged (fst p) trial)
  else if (trial >? 100000)%Z
  then inl (Trained FI_cap (if lower then fi_weights s else fi_bw s) trial)
  else if num_le (dist (fst p) (fi_weights s)) theta
  then inl (Trained FI_delta (fst p) trial)
  else inr (FiVars trial (fst p)
              (if lower then Fin e else fi_best s)
              (if num_lt (dist (fst p) (fi_weights s)) (fi_bestd s)
               then dist (fst p) (fi_weights s) else fi_bestd s)
              (if lower then fi_weights s else fi_bw s)).
Proof.
  unfold fi_body.
  destruct (fi_pass samples (fi_weights s)) as [w errors]. cbn [fst snd].
  cbv zeta.
  destruct (length errors =? 0)%nat; [reflexivity|].
  destruct (nat_lt_ext (length errors) (fi_best s));
    destruct (fi_trial s + 1 >? 100000)%Z; try reflexivity;
    destruct (num_le (dist w (fi_weights s)) theta); reflexivity.
Qed.

(** A pass that goes on has moved the trial counter by one, and not
    past the cap. *)
Lemma fi_body_continue (s s' : fi_vars) :
  fi_body dist samples theta s = inr s' ->
  fi_trial s' = (fi_trial s + 1)%Z /\ (fi_trial s' <= 100000)%Z.
Proof.
  rewrite fi_body_eq. cbv zeta.
  destruct (_ =? 0)%nat; [discriminate|].
  destruct (fi_trial s + 1 >? 100000)%Z eqn:Hcap; [discriminate|].
  destruct (num_le _ theta); [discriminate|].
  intros H. injection H as <-. cbn [fi_trial]. split; [reflexivity|].
  rewrite Z.gtb_ltb in Hcap. apply Z.ltb_ge in Hcap. lia.
Qed.

Lemma fi_body_break_trial (s : fi_vars) (r : trained fi_exit) :
  fi_body dist samples theta s = inl r -> final_trial r = (fi_trial s + 1)%Z.
Proof.
  rewrite fi_body_eq. cbv zeta.
  destruct (_ =? 0)%nat; [intros H; injection H as <-; reflexivity|].
  destruct (fi_trial s + 1 >? 100000)%Z; [intros H; injection H as <-; reflexivity|].
  destruct (num_le _ theta); [intros H; injection H as <-; reflexivity|discriminate].
Qed.

Lemma fi_loop_terminates (fuel : nat) (s : fi_vars) :
  (-1 <= fi_trial s <= 100000)%Z ->
  (100001 - fi_trial s <= Z.of_nat fuel)%Z ->
  exists r, loop (fi_body dist samples theta) fuel s = Some r
            /\ (0 <= final_trial r <= 100001)%Z.
Proof.
  intros Hs Hfuel.
  set (P := fun s : fi_vars => (-1 <= fi_trial s <= 100000)%Z).
  destruct (@loop_terminates _ _ (fi_body dist samples theta) P
              (fun s => Z.to_nat (100000 - fi_trial s))) with (fuel := fuel) (s := s)
    as [r Hr].
  - intros s0 s1 Hs0 Hb. apply fi_body_continue in Hb as [Ht Hle].
    unfold P in *. split; lia.
  - exact Hs.
  - lia.
  - exists r. split; [exact Hr|].
    destruct (@loop_invariant _ _ (fi_body dist samples theta) P) with (fuel := fuel) (s := s) (r := r)
      as [s1 [Hs1 Hexit]]; try assumption.
    + intros s0 s1 Hs0 Hb. apply fi_body_continue in Hb. unfold P in *. lia.
    + apply fi_body_break_trial in Hexit. unfold P in Hs1. lia.
Qed.

Variable nfeatures : nat.

Local Abbreviation W := (fi_weights_at samples nfeatures).
Local Abbreviation E := (fi_errors_at samples nfeatures).

Local Abbreviation after_passes := (fi_after dist theta samples nfeatures).

Lemma fi_after_init : after_passes 0 (fi_init nfeatures).
Proof.
  unfold fi_after, fi_init. cbn [fi_trial fi_weights fi_best fi_bw].
  split; [reflexivity|]. split; [lia|]. split; [reflexivity|]. split.
  - left. split; reflexivity.
  - intros i Hi. lia.
Qed.

(** The test [len(errors) < best] and the two assignments under it
    keep the first pass of least error count seen so far. *)
Lemma fi_track_best (k : nat) (s : fi_vars) :
  after_passes k s ->
  exists j,
    first_least E j (Datatypes.S k)
    /\ (if nat_lt_ext (E k) (fi_best s) then Fin (E k) else fi_best s) = Fin (E j)
    /\ (if nat_lt_ext (E k) (fi_best s) then fi_weights s else fi_bw s) = W j.
Proof.
  intros (_ & _ & Hw & Hbest & _).
  destruct Hbest as [[-> Hinf] | (j & (Hjk & Hbefore & Hall) & Hb & Hbw)].
  - rewrite Hinf. cbn [nat_lt_ext]. exists O. repeat split; try assumption; try lia.
    intros i Hi. assert (i = O) by lia. subst. lia.
  - rewrite Hb. cbn [nat_lt_ext].
    destruct (E k <? E j)%nat eqn:Hlt.
    + apply Nat.ltb_lt in Hlt. exists k. repeat split; try assumption; try lia.
      * intros i Hi. specialize (Hall i Hi). lia.
      * intros i Hi. destruct (Nat.eq_dec i k) as [->|Hne]; [lia|].
        assert (Hik : (i < k)%nat) by lia. specialize (Hall i Hik). lia.
    + apply Nat.ltb_ge in Hlt. exists j. repeat split; try assumption; try lia.
      intros i Hi. destruct (Nat.eq_dec i k) as [->|Hne]; [lia|].
      apply Hall. lia.
Qed.

Lemma fi_after_step (s s' : fi_vars) :
  (exists k, after_passes k s) ->
  fi_body dist samples theta s = inr s' ->
  exists k, after_passes k s'.
Proof.
  intros [k Hk] Hb.
  destruct (fi_track_best Hk) as (j & Hj & Hbest & Hbw).
  destruct (fi_body_continue _ Hb) as [Ht Hle].
  destruct Hk as (Htrial & Hcap & Hw & _ & Hgo).
  rewrite fi_body_eq in Hb. cbv zeta in Hb.
  rewrite Hw in Hb. fold (fi_errors_at samples nfeatures k) in Hb.
  change (fst (fi_pass samples (W k))) with (W (Datatypes.S k)) in Hb.
  rewrite Hw in Hbw.
  destruct (E k =? 0)%nat eqn:Herr; [discriminate|].
  destruct (fi_trial s + 1 >? 100000)%Z; [discriminate|].
  destruct (num_le (dist (W (Datatypes.S k)) (W k)) theta) eqn:Hdelta; [discriminate|].
  rewrite Hbest, Hbw in Hb. injection Hb as <-.
  exists (Datatypes.S k). unfold fi_after. cbn [fi_trial fi_weights fi_best fi_bw].
  cbn [fi_trial] in Ht, Hle.
  split; [lia|]. split; [lia|]. split; [reflexivity|]. split.
  - right. exists j. repeat split; try apply Hj; reflexivity.
  - intros i Hi. destruct (Nat.eq_dec i k) as [->|Hne].
    + split.
      * apply Nat.eqb_neq in Herr. lia.
      * exact Hdelta.
    + apply Hgo. lia.
Qed.

Lemma fi_after_cap (s : fi_vars) (w : vec) (t : Z) :
  (exists k, after_passes k s) ->
  fi_body dist samples theta s = inl (Trained FI_cap w t) ->
  t = 100001%Z
  /\ (exists j, first_least E j (Z.to_nat 100002) /\ w = W j)
  /\ fi_kept_going dist theta samples nfeatures (Z.to_nat 100001)
  /\ (0 < E (Z.to_nat 100001))%nat.
Proof.
  intros [k Hk] Hb.
  destruct (fi_track_best Hk) as (j & Hj & _ & Hbw).
  destruct Hk as (Htrial & Hcap & Hw & _ & Hgo).
  rewrite fi_body_eq in Hb. cbv zeta in Hb.
  rewrite Hw in Hb. fold (fi_errors_at samples nfeatures k) in Hb.
  rewrite <- Hw in Hb.
  destruct (E k =? 0)%nat eqn:Herr; [discriminate|].
  destruct (fi_trial s + 1 >? 100000)%Z eqn:Hgt.
  - rewrite Hbw in Hb. injection Hb as <- <-.
    rewrite Z.gtb_ltb in Hgt. apply Z.ltb_lt in Hgt.
    assert (Hk : k = Z.to_nat 100001) by lia.
    split; [lia|]. split; [|split].
    + exists j. split; [|reflexivity].
      replace (Z.to_nat 100002) with (Datatypes.S k) by lia. exact Hj.
    + rewrite <- Hk. exact Hgo.
    + rewrite <- Hk. apply Nat.eqb_neq in Herr. lia.
  - destruct (num_le _ theta); discriminate.
Qed.

End FixedIncrement.

(** C1.  When [fixed_increment] leaves through the trial cap, it is during
    trial 100001, after 100001 passes that each made an error and did not
    have [delta <= theta] and a last one that made an error too; it
    returns the remembered weights, those held before the updates of the
    first trial, among the 100002 made, with the least error count, rather
    than the weights the last pass left. *)
Theorem fixed_increment_cap_returns_best
    (dist : vec -> vec -> num) (fuel : nat) (samples : matrix) (theta : num)
    (w : vec) (t : Z) :
  fixed_increment_run dist fuel samples theta = Some (Trained FI_cap w t) ->
  fixed_increment dist fuel samples theta = Some w
  /\ t = 100001%Z
  /\ (exists j,
        first_least (fi_errors_at (rows samples) (features samples)) j (Z.to_nat 100002)
        /\ w = fi_weights_at (rows samples) (features samples) j)
  /\ fi_kept_going dist theta (rows samples) (features samples) (Z.to_nat 100001)
  /\ (0 < fi_errors_at (rows samples) (features samples) (Z.to_nat 100001))%nat.
Proof.
  intros Hrun. split.
  - unfold fixed_increment. rewrite Hrun. reflexivity.
  - unfold fixed_increment_run, shape in Hrun.
    destruct (loop_invariant (fi_body dist (rows samples) theta)
                (fun s => exists k, fi_after dist theta (rows samples) (features samples) k s)
                (fun s s' Hs Hb =>
                   @fi_after_step dist (rows samples) theta (features samples) s s' Hs Hb)
                fuel (fi_init (features samples))
                (ex_intro _ O (fi_after_init dist (rows samples) theta (features samples)))
                Hrun)
      as [s [Hs Hexit]].
    exact (@fi_after_cap dist (rows samples) theta (features samples) s w t Hs Hexit).
Qed.

Lemma fixed_increment_cap_returns_best_witness :
  fixed_increment manhattan (Z.to_nat 100002) overlapping (Num (3 # 1000000))
  = Some (qv [1; 1])
  /\ exists j,
       first_least (fi_errors_at (rows overlapping) (features overlapping)) j (Z.to_nat 100002)
       /\ qv [1; 1] = fi_weights_at (rows overlapping) (features overlapping) j.
Proof.
  assert (Hrun :
    fixed_increment_run manhattan (Z.to_nat 100002) overlapping (Num (3 # 1000000))
    = Some (Trained FI_cap (qv [1; 1]) 100001)).
  { vm_compute. reflexivity. }
  destruct (fixed_increment_cap_returns_best _ _ _ _ Hrun) as (Hw & _ & Hj & _).
  split; [exact Hw | exact Hj].
Defined.

(** On that run the weights the last pass left are not the ones returned. *)
Example overlapping_current_weights :
  fi_weights_at (rows overlapping) (features overlapping) (Z.to_nat 100002) = qv [0; 1]
  /\ fixed_increment manhattan (Z.to_nat 100002) overlapping (Num (3 # 1000000))
     = Some (qv [1; 1]).
Proof.
  split; vm_compute; reflexivity.
Qed.

(** ** The passes of batch_relaxation *)

Section BatchRelaxation.

Variable dist : vec -> vec -> num.
Variable approx : num -> num -> num -> bool.
Variable norm : vec -> num.
Variable samples : list vec.
Variables rate margin : num.

Lemma br_body_continue (s s' : br_vars) :
  br_body dist approx norm samples rate margin s = inr s' ->
  br_trial s' = (br_trial s + 1)%Z /\ (br_trial s <= 100000)%Z.
Proof.
  unfold br_body.
  destruct (_ =? 0)%nat; [discriminate|].
  destruct (br_trial s >? 100000)%Z eqn:Hcap; [discriminate|].
  match goal with |- context [if ?c then _ else _] => destruct c end; [discriminate|].
  intros H. injection H as <-. cbn [br_trial]. split; [reflexivity|].
  rewrite Z.gtb_ltb in Hcap. apply Z.ltb_ge in Hcap. exact Hcap.
Qed.

Lemma br_body_break_trial (s : br_vars) (r : trained br_exit) :
  br_body dist approx norm samples rate margin s = inl r ->
  final_trial r = br_trial s.
Proof.
  unfold br_body.
  destruct (_ =? 0)%nat; [intros H; injection H as <-; reflexivity|].
  destruct (br_trial s >? 100000)%Z; [intros H; injection H as <-; reflexivity|].
  match goal with |- context [if ?c then _ else _] => destruct c end;
    [intros H; injection H as <-; reflexivity|discriminate].
Qed.

Lemma br_loop_terminates (fuel : nat) (s : br_vars) :
  (0 <= br_trial s <= 100001)%Z ->
  (100002 - br_trial s <= Z.of_nat fuel)%Z ->
  exists r, loop (br_body dist approx norm samples rate margin) fuel s = Some r
            /\ (0 <= final_trial r <= 100001)%Z.
Proof.
  intros Hs Hfuel.
  set (P := fun s : br_vars => (0 <= br_trial s <= 100001)%Z).
  destruct (@loop_terminates _ _ (br_body dist approx norm samples rate margin) P
              (fun s => Z.to_nat (100001 - br_trial s))) with (fuel := fuel) (s := s)
    as [r Hr].
  - intros s0 s1 Hs0 Hb. apply br_body_continue in Hb as [Ht Hle].
    unfold P in *. split; lia.
  - exact Hs.
  - lia.
  - exists r. split; [exact Hr|].
    destruct (@loop_invariant _ _ (br_body dist approx norm samples rate margin) P)
      with (fuel := fuel) (s := s) (r := r)
      as [s1 [Hs1 Hexit]]; try assumption.
    + intros s0 s1 Hs0 Hb. apply br_body_continue in Hb. unfold P in *. lia.
    + apply br_body_break_trial in Hexit. unfold P in Hs1. lia.
Qed.

End BatchRelaxation.

(** ** Fuel

    Fuel for 100002 passes is enough for [fixed_increment]. *)

Lemma fixed_increment_run_total (dist : vec -> vec -> num) (fuel : nat)
    (samples : matrix) (theta : num) :
  (100002 <= Z.of_nat fuel)%Z ->
  exists t, fixed_increment_run dist fuel samples theta = Some t
            /\ (0 <= final_trial t <= 100001)%Z.
Proof.
  intros Hfuel. unfold fixed_increment_run, shape.
  apply fi_loop_terminates; cbn; lia.
Qed.

(** ** Termination *)

(** C8.  With fuel for 100002 passes both training loops end, whatever
    the data: [fixed_increment] returns, [batch_relaxation] returns or
    raises, and the trial counter of a run that returns is at most 100001
    (trials are counted from 0). *)
Theorem training_terminates
    (dist : vec -> vec -> num) (approx : num -> num -> num -> bool) (norm : vec -> num)
    (fuel : nat) (samples : matrix) (theta rate margin theta' : num) (g : rng) :
  (100002 <= Z.of_nat fuel)%Z ->
  (exists t, fixed_increment_run dist fuel samples theta = Some t
             /\ fixed_increment dist fuel samples theta = Some (final_weights t)
             /\ (0 <= final_trial t <= 100001)%Z)
  /\ (exists r g',
        batch_relaxation_run dist approx norm fuel samples rate margin theta' g = Some (r, g')
        /\ batch_relaxation dist approx norm fuel samples rate margin theta' g
           = Some (t <- r ;; ret (final_weights t), g')
        /\ forall t, r = ret t -> (0 <= final_trial t <= 100001)%Z).
Proof.
  intros Hfuel. split.
  - destruct (@fixed_increment_run_total dist fuel samples theta Hfuel) as [t [Ht Hbound]].
    exists t. unfold fixed_increment. rewrite Ht. repeat split; try reflexivity; lia.
  - unfold batch_relaxation, batch_relaxation_run, shape.
    destruct (negb (num_lt (Num 0) rate && num_lt rate (Num 2))).
    + exists (raise ValueError), g. repeat split; discriminate.
    + destruct (np_random_rand (features samples) g) as [w0 g0].
      destruct (length (rows samples)).
      * eexists. exists g0. split; [reflexivity|]. split; [reflexivity|].
        intros t Ht. injection Ht as <-. cbn. lia.
      * destruct (@br_loop_terminates dist approx norm (rows samples) rate margin fuel (br_init w0))
          as [r [Hr Hbound]].
        -- cbn. lia.
        -- cbn. lia.
        -- exists (ret r), g0. rewrite Hr. split; [reflexivity|]. split; [reflexivity|].
           intros t Ht. injection Ht as <-. exact Hbound.
Qed.

Lemma training_terminates_witness :
  (exists t, fixed_increment_run manhattan (Z.to_nat 100002) overlapping (Num (3 # 1000000))
             = Some t
             /\ fixed_increment manhattan (Z.to_nat 100002) overlapping (Num (3 # 1000000))
                = Some (final_weights t)
             /\ (0 <= final_trial t <= 100001)%Z)
  /\ (exists r g',
        batch_relaxation_run manhattan within norm1 (Z.to_nat 100002) overlapping
          (Num (2 # 100)) (Num (3 # 2)) (Num (1 # 1000)) (constant_rng 0) = Some (r, g')
        /\ batch_relaxation manhattan within norm1 (Z.to_nat 100002) overlapping
             (Num (2 # 100)) (Num (3 # 2)) (Num (1 # 1000)) (constant_rng 0)
           = Some (t <- r ;; ret (final_weights t), g')
        /\ forall t, r = ret t -> (0 <= final_trial t <= 100001)%Z).
Proof.
  apply training_terminates. lia.
Defined.

(** The bound is reached: one pass less does not finish that run. *)
Example overlapping_needs_all_passes :
  fixed_increment manhattan (Z.to_nat 100001) overlapping (Num (3 # 1000000)) = None.
Proof.
  vm_compute. reflexivity.
Qed.

(** ** Classification *)

Lemma score_row_ok (x : vec) (l : Z) (a : vec) :
  length a = Datatypes.S (length x) ->
  score_row x (l, a) = ret (label_value l, score a x).
Proof.
  intros Hlen. destruct a as [|a0 a]; [discriminate|].
  simpl in Hlen. injection Hlen as Hlen.
  unfold score_row, np_dot. cbn [tl]. rewrite Hlen, Nat.eqb_refl. reflexivity.
Qed.

Lemma score_table_ok (x : vec) :
  forall d : dict,
  (forall l a, In (l, a) d -> length a = Datatypes.S (length x)) ->
  score_table x d = ret (map (fun e => (label_value (fst e), score (snd e) x)) d).
Proof.
  induction d as [|[l a] d IH]; intros Hshape.
  - reflexivity.
  - cbn [score_table]. rewrite (@score_row_ok x l a (Hshape l a (or_introl eq_refl))).
    rewrite IH; [reflexivity|].
    intros l' a' Hin. apply (Hshape l' a'). now right.
Qed.

Lemma num_le_refl (a : num) : is_nan a = false -> num_le a a = true.
Proof.
  destruct a as [x| | |]; cbn; try reflexivity; try discriminate.
  intros _. apply Qle_bool_iff, Qle_refl.
Qed.

Lemma num_lt_le (a b : num) : num_lt a b = true -> num_le a b = true.
Proof.
  destruct a as [x| | |], b as [y| | |]; cbn; try discriminate; try reflexivity.
  intros H. apply Qlt_bool_true in H. apply Qle_bool_iff, Qlt_le_weak, H.
Qed.

Lemma num_le_lt_trans (a b c : num) :
  num_le a b = true -> num_lt b c = true -> num_lt a c = true.
Proof.
  destruct a as [x| | |], b as [y| | |], c as [z| | |]; cbn;
    try discriminate; try reflexivity.
  intros H1 H2. apply Qle_bool_iff in H1. apply Qlt_bool_true in H2.
  apply Qlt_bool_true. eapply Qle_lt_trans; eassumption.
Qed.

Lemma num_le_not_nan (a b : num) : num_le a b = true -> is_nan a = false.
Proof.
  destruct a, b; cbn; try discriminate; reflexivity.
Qed.

Lemma nth_error_snoc (A : Type) (pre : list A) (v : A) (k : nat) (u : A) :
  nth_error (pre ++ [v]) k = Some u ->
  ((k < length pre)%nat /\ nth_error pre k = Some u) \/ (k = length pre /\ u = v).
Proof.
  intros Hk. destruct (Nat.lt_ge_cases k (length pre)) as [Hlt|Hge].
  - left. split; [assumption|]. now rewrite nth_error_app1 in Hk.
  - right. rewrite nth_error_app2 in Hk by assumption.
    destruct (k - length pre)%nat as [|n] eqn:Hd.
    + simpl in Hk. split; [lia | congruence].
    + simpl in Hk. destruct n; discriminate.
Qed.

(** [argmax_from] scans on from a prefix without [nan] whose first
    greatest value it holds. *)
Lemma argmax_from_at :
  forall (l pre : list num) (besti : nat) (bestv : num),
  nth_error pre besti = Some bestv ->
  (forall k v, nth_error pre k = Some v -> num_le v bestv = true) ->
  (forall k v, (k < besti)%nat -> nth_error pre k = Some v -> num_lt v bestv = true) ->
  argmax_at (pre ++ l) (argmax_from l (length pre) besti bestv).
Proof.
  induction l as [|v l IH]; intros pre besti bestv Hbest Hall Hfirst.
  - rewrite app_nil_r. cbn [argmax_from]. exists bestv. split; [exact Hbest|].
    right. split; assumption.
  - cbn [argmax_from].
    assert (Hbn : is_nan bestv = false) by (apply (num_le_not_nan _ _ (Hall _ _ Hbest))).
    destruct (num_le v bestv) eqn:Hcmp; cbn [negb].
    + replace (pre ++ v :: l) with ((pre ++ [v]) ++ l) by (rewrite <- app_assoc; reflexivity).
      replace (Datatypes.S (length pre)) with (length (pre ++ [v]))
        by (rewrite length_app; simpl; lia).
      apply IH.
      * rewrite nth_error_app1; [assumption|]. apply nth_error_Some. congruence.
      * intros k u Hk. destruct (nth_error_snoc _ _ _ Hk) as [[_ Hpre]|[_ ->]];
          [apply (Hall k u Hpre)|exact Hcmp].
      * intros k u Hlt Hk. destruct (nth_error_snoc _ _ _ Hk) as [[_ Hpre]|[-> _]].
        -- apply (Hfirst k u Hlt Hpre).
        -- assert (besti < length pre)%nat by (apply nth_error_Some; congruence). lia.
    + destruct (is_nan v) eqn:Hnan.
      * exists v. split.
        -- rewrite nth_error_app2 by lia. now rewrite Nat.sub_diag.
        -- left. split; [exact Hnan|]. intros k u Hlt Hk.
           rewrite nth_error_app1 in Hk by exact Hlt.
           apply (num_le_not_nan _ _ (Hall k u Hk)).
      * pose proof (num_not_le_lt _ _ Hcmp Hnan Hbn) as Hlt.
        replace (pre ++ v :: l) with ((pre ++ [v]) ++ l)
          by (rewrite <- app_assoc; reflexivity).
        replace (Datatypes.S (length pre)) with (length (pre ++ [v]))
          by (rewrite length_app; simpl; lia).
        apply IH.
        -- rewrite nth_error_app2 by lia. now rewrite Nat.sub_diag.
        -- intros k u Hk. destruct (nth_error_snoc _ _ _ Hk) as [[_ Hpre]|[_ ->]].
           ++ apply num_lt_le. apply (num_le_lt_trans _ _ _ (Hall k u Hpre) Hlt).
           ++ apply num_le_refl, Hnan.
        -- intros k u Hk' Hk. destruct (nth_error_snoc _ _ _ Hk) as [[_ Hpre]|[-> _]]; [|lia].
           apply (num_le_lt_trans _ _ _ (Hall k u Hpre) Hlt).
Qed.

Lemma np_argmax_at (l : list num) :
  l <> [] -> exists i, np_argmax l = ret i /\ argmax_at l i.
Proof.
  destruct l as [|v l]; [congruence|]. intros _. cbn [np_argmax].
  destruct (is_nan v) eqn:Hnan.
  - exists O. split; [reflexivity|]. exists v. split; [reflexivity|].
    left. split; [exact Hnan|]. intros k u Hk. lia.
  - exists (argmax_from l 1 0 v). split; [reflexivity|].
    apply (@argmax_from_at l [v] O v eq_refl).
    + intros k u Hk. destruct k as [|k]; simpl in Hk.
      * injection Hk as <-. apply num_le_refl, Hnan.
      * destruct k; discriminate.
    + intros k u Hk. lia.
Qed.

Lemma column1_nonempty (values : list (num * num)) :
  values <> [] -> column1 values = ret (map snd values).
Proof.
  destruct values; [congruence|reflexivity].
Qed.

Lemma float64_of_small (l : Z) :
  (Z.abs l <= 9007199254740992)%Z -> float64_of_Z l = l.
Proof.
  intros Hl. unfold float64_of_Z.
  destruct (Z.abs l <? 2 ^ 53)%Z eqn:Hlt; [reflexivity|].
  apply Z.ltb_ge in Hlt. change (2 ^ 53)%Z with 9007199254740992%Z in Hlt.
  assert (Hcases : l = 9007199254740992%Z \/ l = (-9007199254740992)%Z) by lia.
  destruct Hcases as [-> | ->]; reflexivity.
Qed.

(** What classification returns for one sample, in terms of the scores
    of the entries: the stored label of the entry [np.argmax] lands on. *)
Lemma classify_sample_chosen (d : dict) (x : vec) :
  d <> [] ->
  (forall l a, In (l, a) d -> length a = Datatypes.S (length x)) ->
  exists i l a,
    nth_error d i = Some (l, a)
    /\ classify_sample d x = ret (label_value l)
    /\ argmax_at (map (fun e => score (snd e) x) d) i.
Proof.
  intros Hne Hshape.
  set (values := map (fun e : Z * vec => (label_value (fst e), score (snd e) x)) d).
  assert (Hvalues : values <> []).
  { unfold values. destruct d; [congruence|discriminate]. }
  assert (Hcol : map snd values <> []).
  { destruct values; [congruence|discriminate]. }
  destruct (@np_argmax_at (map snd values) Hcol) as (i & Harg & Hat).
  assert (Hscores : map snd values = map (fun e => score (snd e) x) d).
  { unfold values. rewrite map_map. reflexivity. }
  destruct Hat as (v & Hv & Hkind).
  assert (Hentry : exists l a, nth_error d i = Some (l, a)).
  { rewrite Hscores, nth_error_map in Hv. destruct (nth_error d i) as [[l a]|];
      [now exists l, a|discriminate]. }
  destruct Hentry as (l & a & Hd).
  exists i, l, a. split; [exact Hd|]. split.
  - unfold classify_sample. rewrite (@score_table_ok x d Hshape). fold values.
    cbn [bind ret]. rewrite (column1_nonempty Hvalues).
    cbn [bind ret]. rewrite Harg. cbn [bind ret].
    unfold values. rewrite nth_error_map, Hd. reflexivity.
  - rewrite <- Hscores. exists v. split; assumption.
Qed.

(** On the mapping [{2^53 + 1: [1, 0]}] classification does not return
    the label but its neighbour 2^53; and where a score is [nan] it is not
    the entry of greatest score that is taken: of the scores [+inf] and
    [nan] the second wins. *)
Lemma classify_sample_not_the_label :
  (classify_sample wide_label_model [Num 0] = ret (Num (inject_Z 9007199254740992))
   /\ classify_sample wide_label_model [Num 0] <> ret (Num (inject_Z 9007199254740993)))
  /\ (classify_sample nan_score_model [PosInf] = ret (Num (inject_Z 5))
      /\ score (qv [1; 1]) [PosInf] = PosInf
      /\ score (qv [1; 0]) [PosInf] = NaN).
Proof.
  split; [split|split; [|split]]; try (vm_compute; reflexivity).
  vm_compute. discriminate.
Qed.

(** C6 (as the code has it).  On a non-empty mapping whose weight arrays
    fit the sample, classification computes the score
    [weights[1:]·x + weights[0]] of every entry and returns the label of
    one entry as the [float64] score table holds it, which is the label
    itself up to 2^53 in absolute value.  The entry is the first, in the
    mapping's order, whose score is [nan] if there is one; otherwise the
    first of greatest score: no entry scores higher and every earlier
    entry scores strictly lower. *)
Theorem classify_sample_first_max (d : dict) (x : vec) :
  d <> [] ->
  (forall l a, In (l, a) d -> length a = Datatypes.S (length x)) ->
  exists i l a,
    nth_error d i = Some (l, a)
    /\ classify_sample d x = ret (label_value l)
    /\ (forall p, weights p = Some d -> iter_classify p [x] = ret [label_value l])
    /\ ((Z.abs l <= 9007199254740992)%Z -> label_value l = Num (inject_Z l))
    /\ ((is_nan (score a x) = true
         /\ forall k l' a', (k < i)%nat -> nth_error d k = Some (l', a') ->
                            is_nan (score a' x) = false)
        \/ ((forall k l' a', nth_error d k = Some (l', a') ->
                             num_le (score a' x) (score a x) = true)
            /\ forall k l' a', (k < i)%nat -> nth_error d k = Some (l', a') ->
                               num_lt (score a' x) (score a x) = true)).
Proof.
  intros Hne Hshape.
  destruct (classify_sample_chosen x Hne Hshape) as (i & l & a & Hd & Hclass & v & Hv & Hkind).
  rewrite nth_error_map, Hd in Hv. cbn [option_map snd] in Hv. injection Hv as <-.
  assert (Hnth : forall k l' a', nth_error d k = Some (l', a') ->
            nth_error (map (fun e : Z * vec => score (snd e) x) d) k = Some (score a' x)).
  { intros k l' a' Hk. rewrite nth_error_map, Hk. reflexivity. }
  exists i, l, a. split; [exact Hd|]. split; [exact Hclass|]. split; [|split].
  - intros p Hp. unfold iter_classify. rewrite Hp. cbn [classify_all].
    rewrite Hclass. reflexivity.
  - intros Hl. unfold label_value. now rewrite float64_of_small.
  - destruct Hkind as [[Hnan Hbefore]|[Hmax Hfirst]].
    + left. split; [exact Hnan|]. intros k l' a' Hlt Hk.
      apply (Hbefore k _ Hlt (Hnth k l' a' Hk)).
    + right. split.
      * intros k l' a' Hk. apply (Hmax k _ (Hnth k l' a' Hk)).
      * intros k l' a' Hlt Hk. apply (Hfirst k _ Hlt (Hnth k l' a' Hk)).
Qed.

Lemma classify_sample_first_max_witness :
  exists i l a,
    nth_error tied_model i = Some (l, a)
    /\ classify_sample tied_model (qv [1]) = ret (label_value l)
    /\ classify_sample tied_model (qv [1]) = ret (Num (inject_Z 3)).
Proof.
  destruct (@classify_sample_first_max tied_model (qv [1]))
    as (i & l & a & Hi & Hc & _).
  - discriminate.
  - intros l a [H|[H|[H|[]]]]; injection H as <- <-; reflexivity.
  - exists i, l, a. split; [exact Hi|]. split; [exact Hc|]. vm_compute. reflexivity.
Defined.

(** C2.  A model fresh from [__init__] passes the [assert] of
    [iter_classify], since it does have a [weights] attribute; classifying
    any sample then fails with [IndexError] on the empty score table, not
    with the assertion, and classifying no sample returns normally. *)
Theorem classify_untrained_index_error
    (r : TrainingRule) (st : Strategy) (lr : option (Q -> Q))
    (x : vec) (data : list vec) (ncols : nat) (l : Z) (labels : list Z) :
  classify (init r st lr) (Matrix (x :: data) ncols) = raise IndexError
  /\ test (init r st lr) (Matrix (x :: data) ncols) (l :: labels) = raise IndexError
  /\ classify (init r st lr) (Matrix [] ncols) = ret [].
Proof.
  repeat split.
Qed.

(** ** Training *)

Lemma insert_unique_In (x y : Z) :
  forall l, In y (insert_unique x l) <-> y = x \/ In y l.
Proof.
  induction l as [|z l IH]; cbn [insert_unique].
  - cbn. intuition congruence.
  - destruct (x <? z)%Z; [cbn; intuition congruence|].
    destruct (x =? z)%Z eqn:He.
    + apply Z.eqb_eq in He. subst. cbn. intuition congruence.
    + cbn [In]. rewrite IH. intuition congruence.
Qed.

Lemma np_unique_In (y : Z) :
  forall labels, In y (np_unique labels) <-> In y labels.
Proof.
  induction labels as [|x labels IH]; [reflexivity|].
  unfold np_unique in *. cbn [fold_right]. rewrite insert_unique_In, IH.
  cbn. intuition congruence.
Qed.

Lemma insert_unique_increasing (x : Z) :
  forall l, increasing l -> increasing (insert_unique x l).
Proof.
  induction l as [|z l IH]; intros Hl; cbn [insert_unique].
  - cbn. intuition.
  - destruct Hl as [Hz Hl].
    destruct (x <? z)%Z eqn:Hlt.
    + apply Z.ltb_lt in Hlt. cbn [increasing]. repeat split; try assumption.
      intros y [<-|Hy]; [assumption|]. specialize (Hz y Hy). lia.
    + destruct (x =? z)%Z eqn:He.
      * cbn [increasing]. split; assumption.
      * apply Z.ltb_ge in Hlt. apply Z.eqb_neq in He.
        cbn [increasing]. split; [|apply IH, Hl].
        intros y Hy. apply insert_unique_In in Hy as [->|Hy]; [lia|apply Hz, Hy].
Qed.

Lemma np_unique_increasing (labels : list Z) : increasing (np_unique labels).
Proof.
  induction labels as [|x labels IH]; [exact I|].
  apply insert_unique_increasing, IH.
Qed.

Lemma increasing_NoDup : forall l, increasing l -> NoDup l.
Proof.
  induction l as [|x l IH]; intros Hl; constructor.
  - intros Hin. destruct Hl as [Hx _]. specialize (Hx x Hin). lia.
  - apply IH, Hl.
Qed.

Lemma dict_get_set_same (k : Z) (v : vec) :
  forall d, dict_get (dict_set k v d) k = Some v.
Proof.
  induction d as [|[k' v'] d IH]; cbn.
  - now rewrite Z.eqb_refl.
  - destruct (k' =? k)%Z eqn:He; cbn; [now rewrite Z.eqb_refl|].
    now rewrite He.
Qed.

Lemma dict_get_set_other (k k0 : Z) (v : vec) :
  k0 <> k -> forall d, dict_get (dict_set k v d) k0 = dict_get d k0.
Proof.
  intros Hne. induction d as [|[k' v'] d IH]; cbn.
  - apply Z.eqb_neq in Hne. rewrite Z.eqb_sym in Hne. now rewrite Hne.
  - destruct (k' =? k)%Z eqn:He; cbn.
    + apply Z.eqb_eq in He. subst k'.
      assert (Hk : (k =? k0)%Z = false) by (apply Z.eqb_neq; congruence).
      now rewrite Hk.
    + destruct (k' =? k0)%Z; [reflexivity|apply IH].
Qed.

Lemma keys_dict_set (k : Z) (v : vec) :
  forall d, keys (dict_set k v d)
            = if existsb (Z.eqb k) (keys d) then keys d else keys d ++ [k].
Proof.
  induction d as [|[k' v'] d IH]; cbn; [reflexivity|].
  rewrite (Z.eqb_sym k k').
  destruct (k' =? k)%Z eqn:He; cbn.
  - apply Z.eqb_eq in He. now subst.
  - unfold keys in IH. rewrite IH.
    destruct (existsb (Z.eqb k) (map fst d)); reflexivity.
Qed.

Lemma fresh_keys_nil (new : list Z) : fresh_keys [] new = new.
Proof.
  unfold fresh_keys. induction new as [|x new IH]; [reflexivity|].
  cbn [filter existsb negb]. f_equal. exact IH.
Qed.

Lemma fresh_keys_snoc (old new : list Z) (k : Z) :
  ~ In k new -> fresh_keys (old ++ [k]) new = fresh_keys old new.
Proof.
  intros Hk. unfold fresh_keys. apply filter_ext_in. intros x Hx.
  rewrite existsb_app. cbn.
  assert (Hne : (x =? k)%Z = false) by (apply Z.eqb_neq; congruence).
  rewrite Hne. now rewrite !orb_false_r.
Qed.

Lemma fresh_keys_In (old new : list Z) (k : Z) :
  In k (fresh_keys old new) <-> In k new /\ ~ In k old.
Proof.
  unfold fresh_keys. rewrite filter_In, negb_true_iff. split.
  - intros [Hn He]. split; [exact Hn|]. intros Ho.
    assert (Hex : existsb (Z.eqb k) old = true)
      by (apply existsb_exists; exists k; split; [exact Ho|apply Z.eqb_refl]).
    congruence.
  - intros [Hn Ho]. split; [exact Hn|].
    destruct (existsb (Z.eqb k) old) eqn:He; [|reflexivity].
    apply existsb_exists in He as (k' & Hk' & Heq). apply Z.eqb_eq in Heq. subst.
    contradiction.
Qed.

Section Train.

Variable dist : vec -> vec -> num.
Variable approx : num -> num -> num -> bool.
Variable norm : vec -> num.
Variable fuel : nat.
Variable samples : matrix.
Variable labels : list Z.

(** What a completed run of the training loop over [todo] leaves in the
    mapping [d] it started from. *)
Lemma train_loop_mapping :
  forall (todo : list Z) (p p' : Perceptron) (g g' : rng) (d : dict),
  NoDup todo ->
  weights p = Some d ->
  train_loop dist approx norm fuel samples labels todo p g = Some (ret tt, p', g') ->
  exists d' runs,
    weights p' = Some d'
    /\ rule p' = rule p
    /\ class_runs dist approx norm fuel (rule p) samples labels todo g = Some (runs, g')
    /\ map fst runs = todo
    /\ (forall l w, In (l, w) runs -> dict_get d' l = Some w)
    /\ keys d' = keys d ++ fresh_keys (keys d) todo
    /\ (forall l, ~ In l todo -> dict_get d' l = dict_get d l).
Proof.
  induction todo as [|l todo IH]; intros p p' g g' d Hnd Hd Hrun.
  - cbn in Hrun. injection Hrun as <- <-. exists d, [].
    unfold fresh_keys. cbn [filter class_runs map]. rewrite app_nil_r.
    repeat split; try assumption; try reflexivity.
    intros l w [].
  - cbn [train_loop] in Hrun. cbn [class_runs].
    destruct (normalize_features l samples labels) as [e|normalized] eqn:Hn; [discriminate|].
    destruct (rule_method dist approx norm (rule p) fuel normalized g)
      as [[[e|w] g1]|] eqn:Hm; [discriminate| |discriminate].
    rewrite Hd in Hrun.
    inversion Hnd as [|l0 todo0 Hnotin Hnd']; subst.
    destruct (IH (MkPerceptron (strategy p) (rule p) (Some (dict_set l w d)) (learning_rate p))
                p' g1 g' (dict_set l w d) Hnd' eq_refl Hrun)
      as (d' & runs & Hd' & Hrule & Hruns & Hfst & Hget & Hkeys & Hstale).
    cbn [rule] in Hrule, Hruns. rewrite Hruns.
    exists d', ((l, w) :: runs). split; [exact Hd'|]. split; [exact Hrule|].
    split; [reflexivity|]. split; [cbn [map fst]; now rewrite Hfst|].
    split; [|split].
    + intros l0 w0 [Heq|Hin].
      * injection Heq as <- <-. rewrite (Hstale l Hnotin). apply dict_get_set_same.
      * apply Hget, Hin.
    + rewrite Hkeys, keys_dict_set. unfold fresh_keys at 2. cbn [filter].
      fold (fresh_keys (keys d) todo).
      destruct (existsb (Z.eqb l) (keys d)); cbn [negb].
      * reflexivity.
      * rewrite (@fresh_keys_snoc (keys d) todo l Hnotin), <- app_assoc. reflexivity.
    + intros l0 Hl0. rewrite (Hstale l0).
      * apply dict_get_set_other. intros ->. apply Hl0. now left.
      * intros Hin. apply Hl0. now right.
Qed.

End Train.

(** A second training call on other labels leaves the entries of the first
    in the mapping: four keys, of which 0 and 1 are not labels of the
    second training set. *)
Lemma train_again_keeps_old_labels :
  train manhattan within norm1 100 (init FixedIncrement OneAgainstRest None)
    two_points [0; 1]%Z (constant_rng 0)
  = Some (ret tt, trained_once, constant_rng 0)
  /\ train manhattan within norm1 100 trained_once two_points [2; 3]%Z (constant_rng 0)
     = Some (ret tt, trained_twice, constant_rng 0)
  /\ option_map keys (weights trained_twice) = Some [0; 1; 2; 3]%Z
  /\ option_map keys (weights trained_twice) <> Some (np_unique [2; 3]%Z).
Proof.
  split; [vm_compute; reflexivity|].
  split; [vm_compute; reflexivity|].
  split; [reflexivity|].
  vm_compute. discriminate.
Qed.

(** C9 (as the code has it).  [train] does not clear the mapping.  After a
    call that completes, the labels of the training set are mapped, each to
    the weights its run returned, the runs being made one label after the
    other in increasing order, each from the random generator the previous
    one left; every entry under a label absent from the training set is as
    it was before the call; the keys are the former keys in their order
    followed by the new labels in increasing order, without repetition.
    The keys are exactly the labels of the training set if and only if
    every key held before the call is one of those labels. *)
Theorem train_keeps_other_entries
    (dist : vec -> vec -> num) (approx : num -> num -> num -> bool) (norm : vec -> num)
    (fuel : nat) (p p' : Perceptron) (samples : matrix) (labels : list Z)
    (g g' : rng) (d : dict) :
  weights p = Some d ->
  train dist approx norm fuel p samples labels g = Some (ret tt, p', g') ->
  exists d' runs,
    weights p' = Some d'
    /\ class_runs dist approx norm fuel (rule p) samples labels (np_unique labels) g
       = Some (runs, g')
    /\ map fst runs = np_unique labels
    /\ (forall l w, In (l, w) runs -> dict_get d' l = Some w)
    /\ (forall l, ~ In l labels -> dict_get d' l = dict_get d l)
    /\ keys d' = keys d ++ fresh_keys (keys d) (np_unique labels)
    /\ (NoDup (keys d) -> NoDup (keys d'))
    /\ ((forall k, In k (keys d') <-> In k labels)
        <-> (forall k, In k (keys d) -> In k labels)).
Proof.
  intros Hd Hrun. unfold train in Hrun.
  destruct (@train_loop_mapping dist approx norm fuel samples labels (np_unique labels)
              p p' g g' d (increasing_NoDup _ (np_unique_increasing labels)) Hd Hrun)
    as (d' & runs & Hd' & _ & Hruns & Hfst & Hget & Hkeys & Hstale).
  assert (Hin : forall k, In k (keys d') <-> In k (keys d) \/ (In k labels /\ ~ In k (keys d))).
  { intros k. rewrite Hkeys, in_app_iff, fresh_keys_In, np_unique_In. reflexivity. }
  exists d', runs. split; [exact Hd'|]. split; [exact Hruns|]. split; [exact Hfst|].
  split; [exact Hget|]. split; [|split; [exact Hkeys|split]].
  - intros l Hl. apply Hstale. now rewrite np_unique_In.
  - intros Hnd. rewrite Hkeys. apply NoDup_app; [exact Hnd| |].
    + apply NoDup_filter, increasing_NoDup, np_unique_increasing.
    + intros k Hk Hf. apply fresh_keys_In in Hf as [_ Hf]. contradiction.
  - split.
    + intros Hall k Hk. apply Hall, Hin. now left.
    + intros Hsub k. rewrite Hin. split.
      * intros [Hk|[Hk _]]; [apply Hsub, Hk|exact Hk].
      * intros Hk. destruct (in_dec Z.eq_dec k (keys d)) as [Ho|Ho]; [now left|now right].
Qed.

Lemma train_keeps_other_entries_witness :
  exists d' runs,
    weights trained_twice = Some d'
    /\ class_runs manhattan within norm1 100 FixedIncrement two_points [2; 3]%Z
         (np_unique [2; 3]%Z) (constant_rng 0) = Some (runs, constant_rng 0)
    /\ keys d' = [0; 1]%Z ++ fresh_keys [0; 1]%Z (np_unique [2; 3]%Z)
    /\ dict_get d' 0%Z = Some (qv [1; -1]).
Proof.
  destruct (@train_keeps_other_entries manhattan within norm1 100
              trained_once trained_twice two_points [2; 3]%Z
              (constant_rng 0) (constant_rng 0)
              [(0%Z, qv [1; -1]%Q); (1%Z, qv [-1; 1]%Q)] eq_refl)
    as (d' & runs & Hd' & Hruns & _ & _ & Hstale & Hkeys & _).
  - vm_compute. reflexivity.
  - exists d', runs. split; [exact Hd'|]. split; [exact Hruns|]. split; [exact Hkeys|].
    rewrite Hstale; [reflexivity|].
    intros [H|[H|[]]]; discriminate.
Defined.

(** * Further properties *)

Unset Implicit Arguments.

Lemma length_vadd (a b : vec) : length (vadd a b) = Nat.min (length a) (length b).
Proof.
  unfold vadd. now rewrite length_map, length_combine.
Qed.

(** ** A pass of fixed_increment *)

Lemma fi_visit_errors_grow (samples : list vec) :
  forall (w : vec) (errors : list vec),
  snd (fold_left fi_visit samples (w, errors)) = [] -> errors = [].
Proof.
  induction samples as [|y samples IH]; intros w errors H; cbn [fold_left] in H.
  - exact H.
  - unfold fi_visit at 2 in H.
    destruct (num_le (np_sum (vmul w y)) (Num 0)).
    + apply IH in H. destruct errors; discriminate.
    + apply (IH w errors H).
Qed.

Lemma fi_fold_no_error (samples : list vec) (w : vec) :
  forall errors : list vec,
  snd (fold_left fi_visit samples (w, errors)) = [] ->
  fst (fold_left fi_visit samples (w, errors)) = w
  /\ forall y, In y samples -> num_le (dot w y) (Num 0) = false.
Proof.
  induction samples as [|y samples IH]; intros errors H; cbn [fold_left] in *.
  - split; [reflexivity|]. intros y [].
  - unfold fi_visit at 2 in H. unfold fi_visit at 2.
    destruct (num_le (np_sum (vmul w y)) (Num 0)) eqn:Hnet.
    + apply fi_visit_errors_grow in H. destruct errors; discriminate.
    + destruct (IH errors H) as [Hw Hall]. split; [exact Hw|].
      intros y' [<-|Hy']; [exact Hnet|apply Hall, Hy'].
Qed.

(** A pass without error leaves the weights alone, and no sample has a
    net at or below 0. *)
Lemma fi_pass_no_error (samples : list vec) (w : vec) :
  snd (fi_pass samples w) = [] ->
  fst (fi_pass samples w) = w
  /\ forall y, In y samples -> num_le (dot w y) (Num 0) = false.
Proof.
  apply fi_fold_no_error.
Qed.

Lemma fi_fold_separating (samples : list vec) (w : vec) :
  (forall y, In y samples -> num_le (dot w y) (Num 0) = false) ->
  forall errors : list vec, fold_left fi_visit samples (w, errors) = (w, errors).
Proof.
  induction samples as [|y samples IH]; intros Hall errors; cbn [fold_left].
  - reflexivity.
  - unfold fi_visit at 2.
    pose proof (Hall y (or_introl eq_refl)) as Hy. unfold dot in Hy. rewrite Hy.
    apply IH. intros y' Hy'. apply Hall. now right.
Qed.

(** Conversely, weights under which no net is at or below 0 pass
    unchanged. *)
Lemma fi_pass_separating (samples : list vec) (w : vec) :
  (forall y, In y samples -> num_le (dot w y) (Num 0) = false) ->
  fi_pass samples w = (w, []).
Proof.
  intros Hall. apply (fi_fold_separating samples w Hall).
Qed.

Lemma fi_body_converged (dist : vec -> vec -> num) (samples : list vec) (theta : num)
    (s : fi_vars) (w : vec) (t : Z) :
  fi_body dist samples theta s = inl (Trained FI_converged w t) ->
  w = fi_weights s /\ forall y, In y samples -> num_le (dot w y) (Num 0) = false.
Proof.
  rewrite fi_body_eq. cbv zeta.
  destruct (length (snd (fi_pass samples (fi_weights s))) =? 0)%nat eqn:He.
  - intros H. injection H as <- _.
    apply Nat.eqb_eq, length_zero_iff_nil in He.
    destruct (fi_pass_no_error samples (fi_weights s) He) as [Hw Hall].
    rewrite Hw. split; [reflexivity|exact Hall].
  - destruct (fi_trial s + 1 >? 100000)%Z; [discriminate|].
    destruct (num_le _ theta); discriminate.
Qed.

Lemma fixed_increment_run_converged (dist : vec -> vec -> num) (fuel : nat)
    (samples : matrix) (theta : num) (w : vec) (t : Z) :
  fixed_increment_run dist fuel samples theta = Some (Trained FI_converged w t) ->
  forall y, In y (rows samples) -> num_le (dot w y) (Num 0) = false.
Proof.
  unfold fixed_increment_run, shape. intros Hrun.
  destruct (@loop_invariant _ _ (fi_body dist (rows samples) theta) (fun _ => True)
              (fun _ _ _ _ => I) fuel (fi_init (features samples)) _ I Hrun)
    as [s [_ Hexit]].
  apply fi_body_converged in Hexit. apply Hexit.
Qed.

(** X1.  When [fixed_increment] leaves through [len(errors) == 0], no
    sample has a net at or below 0 under the weights it returns: every net
    that is a number is strictly positive; a net can also be [nan]. *)
Theorem fixed_increment_converged_separates (dist : vec -> vec -> num) (fuel : nat)
    (samples : matrix) (theta : num) (w : vec) (t : Z) :
  fixed_increment_run dist fuel samples theta = Some (Trained FI_converged w t) ->
  fixed_increment dist fuel samples theta = Some w
  /\ (forall y, In y (rows samples) -> num_le (dot w y) (Num 0) = false)
  /\ (forall y, In y (rows samples) -> is_nan (dot w y) = false ->
        num_lt (Num 0) (dot w y) = true).
Proof.
  intros Hrun.
  pose proof (fixed_increment_run_converged dist fuel samples theta w t Hrun) as Hsep.
  split; [|split].
  - unfold fixed_increment. rewrite Hrun. reflexivity.
  - exact Hsep.
  - intros y Hy Hn. apply num_not_le_lt; [apply Hsep, Hy|exact Hn|reflexivity].
Qed.

Lemma fixed_increment_converged_separates_witness :
  fixed_increment manhattan 100 separable (Num (3 # 1000000)) = Some (qv [1; -1])
  /\ num_lt (Num 0) (dot (qv [1; -1]) (qv [-1; -2])) = true.
Proof.
  assert (Hrun : fixed_increment_run manhattan 100 separable (Num (3 # 1000000))
                 = Some (Trained FI_converged (qv [1; -1]) 2)).
  { vm_compute. reflexivity. }
  destruct (fixed_increment_converged_separates _ _ _ _ _ _ Hrun) as (Hw & _ & Hsep).
  split; [exact Hw|]. apply Hsep; [right; left; reflexivity|reflexivity].
Defined.

(** X2.  When the all-ones weights already give every sample a positive
    net, [fixed_increment] returns them after a single pass (trial 0). *)
Theorem fixed_increment_ones_separate (dist : vec -> vec -> num) (fuel : nat)
    (samples : matrix) (theta : num) :
  (forall y, In y (rows samples) ->
     num_lt (Num 0) (dot (np_ones (features samples)) y) = true) ->
  fixed_increment_run dist (Datatypes.S fuel) samples theta
  = Some (Trained FI_converged (np_ones (features samples)) 0).
Proof.
  intros Hall. unfold fixed_increment_run, shape. cbn [loop].
  rewrite fi_body_eq. cbv zeta. cbn [fi_init fi_weights fi_trial].
  rewrite (fi_pass_separating (rows samples) _
             (fun y Hy => num_lt_not_le _ _ (Hall y Hy))).
  reflexivity.
Qed.

Lemma fixed_increment_ones_separate_witness :
  fixed_increment_run manhattan 1 already_positive (Num (3 # 1000000))
  = Some (Trained FI_converged (qv [1; 1]) 0).
Proof.
  apply (fixed_increment_ones_separate manhattan 0 already_positive (Num (3 # 1000000))).
  intros y [<-|[]]. reflexivity.
Defined.

(** ** The dimension of the trained weights *)

Lemma fi_fold_length (n : nat) (samples : list vec) :
  Forall (fun r => length r = n) samples ->
  forall (w : vec) (errors : list vec),
  length w = n -> length (fst (fold_left fi_visit samples (w, errors))) = n.
Proof.
  induction 1 as [|y samples Hy _ IH]; intros w errors Hw; cbn [fold_left].
  - exact Hw.
  - unfold fi_visit at 2.
    destruct (num_le (np_sum (vmul w y)) (Num 0)); apply IH; [|exact Hw].
    rewrite length_vadd, Hw, Hy. apply Nat.min_id.
Qed.

Lemma fi_body_length (dist : vec -> vec -> num) (n : nat) (samples : list vec)
    (theta : num) :
  Forall (fun r => length r = n) samples ->
  forall s : fi_vars,
  length (fi_weights s) = n /\ length (fi_bw s) = n ->
  match fi_body dist samples theta s with
  | inl r => length (final_weights r) = n
  | inr s' => length (fi_weights s') = n /\ length (fi_bw s') = n
  end.
Proof.
  intros Hwf s [Hw Hbw]. rewrite fi_body_eq. cbv zeta.
  assert (Hpass : length (fst (fi_pass samples (fi_weights s))) = n)
    by (apply (fi_fold_length n samples Hwf), Hw).
  destruct (_ =? 0)%nat; [exact Hpass|].
  destruct (fi_trial s + 1 >? 100000)%Z.
  - cbn [final_weights]. destruct (nat_lt_ext _ _); assumption.
  - destruct (num_le _ theta); [exact Hpass|].
    cbn [fi_weights fi_bw]. split; [exact Hpass|].
    destruct (nat_lt_ext _ _); assumption.
Qed.

Lemma fixed_increment_length (dist : vec -> vec -> num) (fuel : nat)
    (samples : matrix) (theta : num) (w : vec) :
  wf_matrix samples ->
  fixed_increment dist fuel samples theta = Some w ->
  length w = features samples.
Proof.
  intros Hwf Hrun. unfold fixed_increment in Hrun.
  destruct (fixed_increment_run dist fuel samples theta) as [r|] eqn:Hr; [|discriminate].
  injection Hrun as <-. unfold fixed_increment_run, shape in Hr.
  set (P := fun s : fi_vars => length (fi_weights s) = features samples
                               /\ length (fi_bw s) = features samples).
  assert (Hstep : forall s s', P s -> fi_body dist (rows samples) theta s = inr s' -> P s').
  { intros s s' Hs Hb.
    pose proof (fi_body_length dist (features samples) (rows samples) theta Hwf s Hs) as H.
    rewrite Hb in H. exact H. }
  assert (Hinit : P (fi_init (features samples))).
  { unfold P, fi_init. cbn [fi_weights fi_bw]. unfold np_ones.
    rewrite repeat_length. split; reflexivity. }
  destruct (@loop_invariant _ _ (fi_body dist (rows samples) theta) P Hstep
              fuel (fi_init (features samples)) r Hinit Hr) as [s [Hs Hexit]].
  pose proof (fi_body_length dist (features samples) (rows samples) theta Hwf s Hs) as H.
  rewrite Hexit in H. exact H.
Qed.

(** X3.  On a well-formed sample matrix, whatever exit [fixed_increment]
    takes, the weights it returns have as many coordinates as the matrix has
    columns. *)
Theorem fixed_increment_dimension (dist : vec -> vec -> num) (fuel : nat)
    (samples : matrix) (theta : num) (w : vec) :
  wf_matrix samples ->
  fixed_increment dist fuel samples theta = Some w ->
  length w = features samples.
Proof.
  exact (fixed_increment_length dist fuel samples theta w).
Qed.

Lemma fixed_increment_dimension_witness :
  fixed_increment manhattan (Z.to_nat 100002) overlapping (Num (3 # 1000000))
  = Some (qv [1; 1])
  /\ length (qv [1; 1]) = features overlapping.
Proof.
  assert (Hrun : fixed_increment manhattan (Z.to_nat 100002) overlapping (Num (3 # 1000000))
                 = Some (qv [1; 1])) by (vm_compute; reflexivity).
  split; [exact Hrun|].
  apply (fixed_increment_dimension manhattan (Z.to_nat 100002) overlapping
           (Num (3 # 1000000))).
  - repeat constructor.
  - exact Hrun.
Defined.

(** ** batch_relaxation: the draw, the empty matrix, the dimension *)

(** The weights [np.random.rand] hands out and the generator it leaves. *)
Lemma batch_relaxation_run_valid
    (dist : vec -> vec -> num) (approx : num -> num -> num -> bool) (norm : vec -> num)
    (fuel : nat) (samples : matrix) (rate margin theta : num) (g : rng) :
  num_lt (Num 0) rate = true -> num_lt rate (Num 2) = true ->
  batch_relaxation_run dist approx norm fuel samples rate margin theta g
  = match length (rows samples) with
    | O => Some (ret (Trained BR_no_pass (drawn g (features samples)) 0),
                 Rng (draws g) (pos g + features samples))
    | _ =>
        match loop (br_body dist approx norm (rows samples) rate margin) fuel
                (br_init (drawn g (features samples))) with
        | None => None
        | Some r => Some (ret r, Rng (draws g) (pos g + features samples))
        end
    end.
Proof.
  intros H0 H2. unfold batch_relaxation_run. rewrite H0, H2. reflexivity.
Qed.

(** X4.  With a valid rate, on a matrix without rows [batch_relaxation]
    makes no pass at all ([cycle(range(0))] is empty): whatever the fuel it
    returns the weights just drawn, one draw per column. *)
Theorem batch_relaxation_no_rows
    (dist : vec -> vec -> num) (approx : num -> num -> num -> bool) (norm : vec -> num)
    (fuel : nat) (samples : matrix) (rate margin theta : num) (g : rng) :
  num_lt (Num 0) rate = true -> num_lt rate (Num 2) = true ->
  rows samples = [] ->
  batch_relaxation dist approx norm fuel samples rate margin theta g
  = Some (ret (map (fun i => Num (draws g i)) (seq (pos g) (features samples))),
          Rng (draws g) (pos g + features samples)).
Proof.
  intros H0 H2 Hrows. unfold batch_relaxation.
  rewrite (batch_relaxation_run_valid dist approx norm fuel samples rate margin theta g H0 H2).
  rewrite Hrows. reflexivity.
Qed.

Lemma batch_relaxation_no_rows_witness :
  batch_relaxation manhattan within norm1 0 no_rows
    (Num (2 # 100)) (Num (3 # 2)) (Num (1 # 1000)) (constant_rng (1 # 2))
  = Some (ret (qv [1 # 2; 1 # 2; 1 # 2]), Rng (fun _ => (1 # 2)%Q) 3).
Proof.
  apply (batch_relaxation_no_rows manhattan within norm1 0 no_rows
           (Num (2 # 100)) (Num (3 # 2)) (Num (1 # 1000)) (constant_rng (1 # 2)));
    reflexivity.
Defined.

Lemma batch_relaxation_advances
    (dist : vec -> vec -> num) (approx : num -> num -> num -> bool) (norm : vec -> num)
    (fuel : nat) (samples : matrix) (rate margin theta : num) (g g' : rng)
    (r : result vec) :
  num_lt (Num 0) rate = true -> num_lt rate (Num 2) = true ->
  batch_relaxation dist approx norm fuel samples rate margin theta g = Some (r, g') ->
  g' = Rng (draws g) (pos g + features samples).
Proof.
  intros H0 H2. unfold batch_relaxation.
  rewrite (batch_relaxation_run_valid dist approx norm fuel samples rate margin theta g H0 H2).
  destruct (length (rows samples)).
  - intros H. injection H as _ <-. reflexivity.
  - destruct (loop _ fuel _); [|discriminate].
    intros H. injection H as _ <-. reflexivity.
Qed.

(** X5.  With a valid rate, a call of [batch_relaxation] that ends has
    taken exactly one draw per column from the random generator. *)
Theorem batch_relaxation_draws
    (dist : vec -> vec -> num) (approx : num -> num -> num -> bool) (norm : vec -> num)
    (fuel : nat) (samples : matrix) (rate margin theta : num) (g g' : rng)
    (r : result vec) :
  num_lt (Num 0) rate = true -> num_lt rate (Num 2) = true ->
  batch_relaxation dist approx norm fuel samples rate margin theta g = Some (r, g') ->
  g' = Rng (draws g) (pos g + features samples).
Proof.
  exact (batch_relaxation_advances dist approx norm fuel samples rate margin theta g g' r).
Qed.

Lemma batch_relaxation_draws_witness :
  batch_relaxation manhattan within norm1 2 one_sample
    (Num (3 # 2)) (Num (3 # 2)) (Num (1 # 1000)) (constant_rng 0)
  = Some (ret (qv [9 # 8; 9 # 8]), Rng (fun _ => 0%Q) 2)
  /\ Rng (fun _ => 0%Q) 2
     = Rng (draws (constant_rng 0)) (pos (constant_rng 0) + features one_sample).
Proof.
  assert (Hrun : batch_relaxation manhattan within norm1 2 one_sample
                   (Num (3 # 2)) (Num (3 # 2)) (Num (1 # 1000)) (constant_rng 0)
                 = Some (ret (qv [9 # 8; 9 # 8]), Rng (fun _ => 0%Q) 2))
    by (vm_compute; reflexivity).
  split; [exact Hrun|].
  apply (batch_relaxation_draws manhattan within norm1 2 one_sample
           (Num (3 # 2)) (Num (3 # 2)) (Num (1 # 1000)) (constant_rng 0) _
           (ret (qv [9 # 8; 9 # 8]))).
  - reflexivity.
  - reflexivity.
  - exact Hrun.
Defined.

Lemma br_term_length (weights : vec) (margin : num) (x : vec) :
  length (br_term weights margin x) = length x.
Proof.
  unfold br_term, vscale. now rewrite !length_map.
Qed.

Lemma sum_axis0_length (n : nat) :
  forall terms : list vec,
  Forall (fun t => length t = n) terms -> length (sum_axis0 n terms) = n.
Proof.
  induction 1 as [|t terms Ht _ IH]; cbn [sum_axis0].
  - apply repeat_length.
  - rewrite length_vadd, Ht, IH. apply Nat.min_id.
Qed.

Lemma br_body_length
    (dist : vec -> vec -> num) (approx : num -> num -> num -> bool) (norm : vec -> num)
    (n : nat) (samples : list vec) (rate margin : num) (s : br_vars) :
  Forall (fun r => length r = n) samples ->
  length (br_weights s) = n ->
  match br_body dist approx norm samples rate margin s with
  | inl r => length (final_weights r) = n
  | inr s' => length (br_weights s') = n
  end.
Proof.
  intros Hwf Hw. unfold br_body.
  destruct (_ =? 0)%nat; [exact Hw|].
  assert (Hnew : length (vadd (br_weights s)
                   (map (fun v => num_mul rate v)
                      (sum_axis0 (length (br_weights s))
                         (map (br_term (br_weights s) margin)
                            (br_errors samples (br_weights s) margin))))) = n).
  { rewrite length_vadd, length_map, Hw, sum_axis0_length; [apply Nat.min_id|].
    apply Forall_forall. intros t Ht.
    apply in_map_iff in Ht as (x & <- & Hx). rewrite br_term_length.
    unfold br_errors in Hx. apply filter_In in Hx as [Hx _].
    revert x Hx. apply Forall_forall, Hwf. }
  destruct (br_trial s >? 100000)%Z; [exact Hnew|].
  match goal with |- context [if ?c then _ else _] => destruct c end; exact Hnew.
Qed.

(** X6.  On a well-formed sample matrix, the weights [batch_relaxation]
    returns have as many coordinates as the matrix has columns. *)
Theorem batch_relaxation_dimension
    (dist : vec -> vec -> num) (approx : num -> num -> num -> bool) (norm : vec -> num)
    (fuel : nat) (samples : matrix) (rate margin theta : num) (g g' : rng) (w : vec) :
  wf_matrix samples ->
  batch_relaxation dist approx norm fuel samples rate margin theta g = Some (ret w, g') ->
  length w = features samples.
Proof.
  intros Hwf. unfold batch_relaxation, batch_relaxation_run, shape.
  destruct (negb (num_lt (Num 0) rate && num_lt rate (Num 2))); [discriminate|].
  assert (Hdraw : length (fst (np_random_rand (features samples) g)) = features samples).
  { unfold np_random_rand, drawn. cbn [fst]. now rewrite length_map, length_seq. }
  destruct (np_random_rand (features samples) g) as [w0 g0]. cbn [fst] in Hdraw.
  destruct (length (rows samples)).
  - intros H. injection H as <- _. exact Hdraw.
  - destruct (loop (br_body dist approx norm (rows samples) rate margin) fuel (br_init w0))
      as [r|] eqn:Hloop; [|discriminate].
    intros H. injection H as <- _.
    set (P := fun s : br_vars => length (br_weights s) = features samples).
    assert (Hstep : forall s s', P s ->
              br_body dist approx norm (rows samples) rate margin s = inr s' -> P s').
    { intros s s' Hs Hb.
      pose proof (br_body_length dist approx norm (features samples) (rows samples)
                    rate margin s Hwf Hs) as H.
      rewrite Hb in H. exact H. }
    destruct (@loop_invariant _ _ (br_body dist approx norm (rows samples) rate margin) P
                Hstep fuel (br_init w0) r Hdraw Hloop) as [s [Hs Hexit]].
    pose proof (br_body_length dist approx norm (features samples) (rows samples)
                  rate margin s Hwf Hs) as H.
    rewrite Hexit in H. exact H.
Qed.

Lemma batch_relaxation_dimension_witness :
  batch_relaxation manhattan within norm1 2 one_sample
    (Num (3 # 2)) (Num (3 # 2)) (Num (1 # 1000)) (constant_rng 0)
  = Some (ret (qv [9 # 8; 9 # 8]), Rng (fun _ => 0%Q) 2)
  /\ length (qv [9 # 8; 9 # 8]) = features one_sample.
Proof.
  assert (Hrun : batch_relaxation manhattan within norm1 2 one_sample
                   (Num (3 # 2)) (Num (3 # 2)) (Num (1 # 1000)) (constant_rng 0)
                 = Some (ret (qv [9 # 8; 9 # 8]), Rng (fun _ => 0%Q) 2))
    by (vm_compute; reflexivity).
  split; [exact Hrun|].
  apply (batch_relaxation_dimension manhattan within norm1 2 one_sample
           (Num (3 # 2)) (Num (3 # 2)) (Num (1 # 1000)) (constant_rng 0)
           (Rng (fun _ => 0%Q) 2)).
  - repeat constructor.
  - exact Hrun.
Defined.

(** ** normalize_features and its labels *)

Lemma normalize_rows_short (cls : Z) :
  forall (samples : list vec) (labels : list Z),
  (length labels < length samples)%nat ->
  normalize_rows cls samples labels = raise IndexError.
Proof.
  induction samples as [|s samples IH]; intros labels Hlen; cbn [length] in Hlen.
  - lia.
  - destruct labels as [|l labels]; [reflexivity|].
    cbn [length] in Hlen. cbn [normalize_rows].
    rewrite (IH labels); [reflexivity|lia].
Qed.

Lemma normalize_rows_firstn (cls : Z) :
  forall (samples : list vec) (labels : list Z),
  normalize_rows cls samples labels
  = normalize_rows cls samples (firstn (length samples) labels).
Proof.
  induction samples as [|s samples IH]; intros labels.
  - reflexivity.
  - destruct labels as [|l labels]; [reflexivity|].
    cbn [length firstn normalize_rows]. now rewrite <- IH.
Qed.

(** X7.  With fewer labels than samples [normalize_features] fails with
    [IndexError] (the read of [labels[i]]) and returns no matrix. *)
Theorem normalize_features_short_labels (cls : Z) (samples : matrix) (labels : list Z) :
  (length labels < length (rows samples))%nat ->
  normalize_features cls samples labels = raise IndexError.
Proof.
  intros Hlen. unfold normalize_features, shape.
  rewrite (normalize_rows_short cls (rows samples) labels Hlen). reflexivity.
Qed.

Lemma normalize_features_short_labels_witness :
  normalize_features 1 three_points [1; 1]%Z = raise IndexError.
Proof.
  apply normalize_features_short_labels. cbn. lia.
Defined.

(** X8.  [normalize_features] reads one label per sample and no more:
    labels past the number of samples do not change its result. *)
Theorem normalize_features_extra_labels (cls : Z) (samples : matrix)
    (labels extra : list Z) :
  length labels = length (rows samples) ->
  normalize_features cls samples (labels ++ extra)
  = normalize_features cls samples labels.
Proof.
  intros Hlen. unfold normalize_features, shape.
  rewrite (normalize_rows_firstn cls (rows samples) (labels ++ extra)).
  rewrite <- Hlen, firstn_app, Nat.sub_diag, firstn_all. cbn [firstn].
  now rewrite app_nil_r.
Qed.

Lemma normalize_features_extra_labels_witness :
  normalize_features 1 three_points ([1; 1; 0] ++ [7; 7])%Z
  = normalize_features 1 three_points [1; 1; 0]%Z.
Proof.
  apply normalize_features_extra_labels. reflexivity.
Defined.

Lemma br_errors_nil (samples : list vec) (w : vec) (margin : num) :
  (forall y, In y samples -> num_lt margin (dot w y) = true) ->
  br_errors samples w margin = [].
Proof.
  unfold br_errors. induction samples as [|y ys IH]; intros Hall; [reflexivity|].
  cbn [filter].
  pose proof (num_lt_not_le _ _ (Hall y (or_introl eq_refl))) as Hy.
  unfold dot in Hy. rewrite Hy.
  apply IH. intros y' Hy'. apply Hall. now right.
Qed.

(** X11.  When the weights just drawn already put every sample above the
    margin, [batch_relaxation] returns them as drawn, after one pass that
    updates nothing. *)
Theorem batch_relaxation_drawn_separate
    (dist : vec -> vec -> num) (approx : num -> num -> num -> bool) (norm : vec -> num)
    (fuel : nat) (samples : matrix) (rate margin theta : num) (g : rng) :
  num_lt (Num 0) rate = true -> num_lt rate (Num 2) = true ->
  rows samples <> [] ->
  (forall y, In y (rows samples) ->
     num_lt margin (dot (map (fun i => Num (draws g i)) (seq (pos g) (features samples))) y)
     = true) ->
  batch_relaxation dist approx norm (Datatypes.S fuel) samples rate margin theta g
  = Some (ret (map (fun i => Num (draws g i)) (seq (pos g) (features samples))),
          Rng (draws g) (pos g + features samples)).
Proof.
  intros H0 H2 Hne Hall. unfold batch_relaxation.
  rewrite (batch_relaxation_run_valid dist approx norm (Datatypes.S fuel) samples
             rate margin theta g H0 H2).
  destruct (length (rows samples)) eqn:Hlen.
  - apply length_zero_iff_nil in Hlen. contradiction.
  - cbn [loop]. unfold br_body. cbn [br_init br_weights br_trial].
    unfold drawn. rewrite (br_errors_nil (rows samples) _ margin Hall). reflexivity.
Qed.

Lemma batch_relaxation_drawn_separate_witness :
  batch_relaxation manhattan within norm1 1 far_augmented
    (Num (2 # 100)) (Num (3 # 2)) (Num (1 # 1000)) (constant_rng (1 # 2))
  = Some (ret (qv [1 # 2; 1 # 2]), Rng (draws (constant_rng (1 # 2))) 2).
Proof.
  apply (batch_relaxation_drawn_separate manhattan within norm1 0 far_augmented
           (Num (2 # 100)) (Num (3 # 2)) (Num (1 # 1000)) (constant_rng (1 # 2))).
  - reflexivity.
  - reflexivity.
  - discriminate.
  - intros y [<-|[<-|[]]]; reflexivity.
Defined.

(** ** Classification: what comes back, and when nothing does *)

Lemma score_row_ret (x : vec) (l : Z) (a : vec) (r : num * num) :
  score_row x (l, a) = inr r ->
  r = (label_value l, score a x) /\ length a = Datatypes.S (length x).
Proof.
  unfold score_row, np_dot.
  destruct (length (tl a) =? length x)%nat eqn:Hlen; [|discriminate].
  cbn [bind ret]. destruct a as [|a0 a]; [discriminate|].
  cbn [index0 bind ret tl] in *. intros H. injection H as <-.
  apply Nat.eqb_eq in Hlen. split; [reflexivity|]. cbn [length]. now rewrite Hlen.
Qed.

Lemma score_row_err (x : vec) (l : Z) (a : vec) (e : exn) :
  score_row x (l, a) = inl e -> e = ValueError \/ e = IndexError.
Proof.
  unfold score_row, np_dot.
  destruct (length (tl a) =? length x)%nat.
  - cbn [bind ret]. destruct a as [|a0 a]; cbn [index0 bind ret raise].
    + intros H. injection H as <-. now right.
    + discriminate.
  - cbn [bind raise]. intros H. injection H as <-. now left.
Qed.

Lemma score_table_ret (x : vec) :
  forall (d : dict) (values : list (num * num)),
  score_table x d = inr values ->
  values = map (fun e => (label_value (fst e), score (snd e) x)) d
  /\ forall l a, In (l, a) d -> length a = Datatypes.S (length x).
Proof.
  induction d as [|[l a] d IH]; intros values H; cbn [score_table] in H.
  - injection H as <-. split; [reflexivity|]. intros l a [].
  - destruct (score_row x (l, a)) as [e|r] eqn:Hr; [discriminate|].
    cbn [bind] in H.
    destruct (score_table x d) as [e|rs] eqn:Hrs; [discriminate|].
    cbn [bind ret] in H. injection H as <-.
    destruct (score_row_ret x l a r Hr) as [-> Hlen].
    destruct (IH rs eq_refl) as [-> Hshape].
    split; [reflexivity|].
    intros l' a' [Heq|Hin]; [injection Heq as <- <-; exact Hlen|].
    apply (Hshape l' a' Hin).
Qed.

Lemma score_table_err (x : vec) :
  forall (d : dict) (e : exn),
  score_table x d = inl e -> e = ValueError \/ e = IndexError.
Proof.
  induction d as [|[l a] d IH]; intros e H; cbn [score_table] in H.
  - discriminate.
  - destruct (score_row x (l, a)) as [e0|r] eqn:Hr.
    + cbn [bind] in H. injection H as <-. apply (score_row_err x l a e0 Hr).
    + cbn [bind] in H. destruct (score_table x d) as [e0|rs]; [|discriminate].
      cbn [bind] in H. injection H as <-. apply (IH e0 eq_refl).
Qed.

(** Whatever classification returns is the first column of a row of the
    score table: the label of an entry, as a [float64]. *)
Lemma classify_sample_ret (d : dict) (x : vec) (c : num) :
  classify_sample d x = inr c ->
  exists l a, In (l, a) d /\ c = label_value l.
Proof.
  unfold classify_sample.
  destruct (score_table x d) as [e|values] eqn:Hvalues; [discriminate|].
  cbn [bind]. destruct (score_table_ret x d values Hvalues) as [Hv _].
  destruct (column1 values) as [e|col]; [discriminate|]. cbn [bind].
  destruct (np_argmax col) as [e|best]; [discriminate|]. cbn [bind].
  destruct (nth_error values best) as [row|] eqn:Hrow; [|discriminate].
  intros H. injection H as <-.
  rewrite Hv, nth_error_map in Hrow.
  destruct (nth_error d best) as [[l a]|] eqn:Hd; [|discriminate].
  cbn in Hrow. injection Hrow as <-.
  exists l, a. split; [apply (nth_error_In d best Hd)|reflexivity].
Qed.

Lemma classify_all_ret (d : dict) :
  forall (data : list vec) (out : list num),
  classify_all d data = inr out ->
  length out = length data
  /\ forall c, In c out -> exists l, In l (keys d) /\ c = label_value l.
Proof.
  induction data as [|x data IH]; intros out H; cbn [classify_all] in H.
  - injection H as <-. split; [reflexivity|]. intros c [].
  - destruct (classify_sample d x) as [e|c0] eqn:Hc; [discriminate|].
    cbn [bind] in H. destruct (classify_all d data) as [e|cs]; [discriminate|].
    cbn [bind ret] in H. injection H as <-.
    destruct (IH cs eq_refl) as [Hlen Hin]. split; [cbn [length]; now rewrite Hlen|].
    intros c [<-|Hc']; [|apply Hin, Hc'].
    destruct (classify_sample_ret d x c0 Hc) as (l & a & Hd & ->).
    exists l. split; [|reflexivity].
    unfold keys. apply in_map_iff. exists (l, a). split; [reflexivity|exact Hd].
Qed.

(** X12.  When [classify] returns, it returns one value per sample, and
    every one of them is a key of the weight mapping as the [float64] score
    table holds it: the key itself when its absolute value is at most
    2^53. *)
Theorem classify_returns_known_labels (p : Perceptron) (data : matrix) (out : list num) :
  classify p data = inr out ->
  exists d,
    weights p = Some d
    /\ length out = length (rows data)
    /\ forall c, In c out ->
         exists l, In l (keys d) /\ c = label_value l
                   /\ ((Z.abs l <= 9007199254740992)%Z -> c = Num (inject_Z l)).
Proof.
  unfold classify, iter_classify. destruct (weights p) as [d|]; [|discriminate].
  intros H. exists d. split; [reflexivity|].
  destruct (classify_all_ret d (rows data) out H) as [Hlen Hin].
  split; [exact Hlen|].
  intros c Hc. destruct (Hin c Hc) as (l & Hl & ->).
  exists l. split; [exact Hl|]. split; [reflexivity|].
  intros Hsmall. unfold label_value. now rewrite (float64_of_small l Hsmall).
Qed.

Lemma classify_returns_known_labels_witness :
  exists d,
    weights trained_once = Some d
    /\ length [Num (inject_Z 0); Num (inject_Z 1)] = length (rows two_points)
    /\ forall c, In c [Num (inject_Z 0); Num (inject_Z 1)] ->
         exists l, In l (keys d) /\ c = label_value l
                   /\ ((Z.abs l <= 9007199254740992)%Z -> c = Num (inject_Z l)).
Proof.
  apply (classify_returns_known_labels trained_once two_points
           [Num (inject_Z 0); Num (inject_Z 1)]).
  vm_compute. reflexivity.
Defined.

Lemma score_table_misfit (x : vec) :
  forall d : dict,
  (exists l a, In (l, a) d /\ length a <> Datatypes.S (length x)) ->
  score_table x d = raise ValueError \/ score_table x d = raise IndexError.
Proof.
  intros d (l & a & Hin & Hlen).
  destruct (score_table x d) as [e|values] eqn:Hst.
  - destruct (score_table_err x d e Hst) as [-> | ->]; [now left|now right].
  - destruct (score_table_ret x d values Hst) as [_ Hshape].
    exfalso. apply Hlen, (Hshape l a Hin).
Qed.

(** X13.  If some weight array of the mapping does not have one more
    coordinate than the sample, classification returns no label: it fails
    with [ValueError] (the shapes in [np.dot]) or [IndexError]. *)
Theorem classify_sample_misfit (d : dict) (x : vec) (l : Z) (a : vec) :
  In (l, a) d -> length a <> Datatypes.S (length x) ->
  classify_sample d x = raise ValueError \/ classify_sample d x = raise IndexError.
Proof.
  intros Hin Hlen. unfold classify_sample.
  destruct (score_table_misfit x d (ex_intro _ l (ex_intro _ a (conj Hin Hlen))))
    as [-> | ->]; [now left|now right].
Qed.

Lemma classify_sample_misfit_witness :
  classify_sample misfit_model (qv [1]%Q) = raise ValueError
  \/ classify_sample misfit_model (qv [1]%Q) = raise IndexError.
Proof.
  apply (classify_sample_misfit misfit_model (qv [1]%Q) 5 (qv [1; 0; 2]%Q)).
  - right. left. reflexivity.
  - cbn. lia.
Defined.

(** ** test: the accuracy it reports *)

Lemma count_correct_bounds (d : dict) :
  forall (labels : list Z) (data : list vec) (c c' : nat),
  count_correct d labels data c = inr c' ->
  (c <= c' <= c + Nat.min (length labels) (length data))%nat.
Proof.
  induction labels as [|truth labels IH]; intros data c c' H.
  - cbn in H. injection H as <-. cbn. lia.
  - destruct data as [|x data].
    + cbn in H. injection H as <-. cbn. lia.
    + cbn [count_correct] in H.
      destruct (classify_sample d x) as [e|classf]; [discriminate|].
      cbn [bind] in H. apply IH in H. cbn [length Nat.min].
      destruct (num_eq (label_value truth) classf); lia.
Qed.

Lemma label_value_eq (l : Z) : num_eq (label_value l) (label_value l) = true.
Proof.
  unfold label_value. cbn [num_eq]. apply Qeq_bool_iff. reflexivity.
Qed.

Lemma count_correct_all (d : dict) :
  forall (labels : list Z) (data : list vec) (c : nat),
  (forall i s l, nth_error data i = Some s -> nth_error labels i = Some l ->
                 classify_sample d s = ret (label_value l)) ->
  count_correct d labels data c = ret (c + Nat.min (length labels) (length data))%nat.
Proof.
  induction labels as [|truth labels IH]; intros data c Hall.
  - cbn. unfold ret. f_equal. lia.
  - destruct data as [|x data].
    + cbn. unfold ret. f_equal. lia.
    + cbn [count_correct].
      rewrite (Hall O x truth eq_refl eq_refl). cbn [bind ret].
      rewrite label_value_eq, IH.
      * unfold ret. f_equal. cbn [length Nat.min]. lia.
      * intros i s l Hs Hl. apply (Hall (Datatypes.S i) s l Hs Hl).
Qed.

Lemma inject_nat_pos (n : nat) : (0 < inject_Z (Z.of_nat (Datatypes.S n)))%Q.
Proof.
  change 0%Q with (inject_Z 0). rewrite <- Zlt_Qlt. lia.
Qed.

Lemma accuracy_range (c n : nat) :
  (c <= Datatypes.S n)%nat ->
  (0 <= inject_Z (Z.of_nat c) / inject_Z (Z.of_nat (Datatypes.S n)) * 100
   /\ inject_Z (Z.of_nat c) / inject_Z (Z.of_nat (Datatypes.S n)) * 100 <= 100)%Q.
Proof.
  intros Hc. pose proof (inject_nat_pos n) as Hpos.
  assert (H0 : (0 <= inject_Z (Z.of_nat c) / inject_Z (Z.of_nat (Datatypes.S n)))%Q).
  { apply Qle_shift_div_l; [exact Hpos|]. rewrite Qmult_0_l.
    change 0%Q with (inject_Z 0). rewrite <- Zle_Qle. lia. }
  assert (H1 : (inject_Z (Z.of_nat c) / inject_Z (Z.of_nat (Datatypes.S n)) <= 1)%Q).
  { apply Qle_shift_div_r; [exact Hpos|]. rewrite Qmult_1_l.
    rewrite <- Zle_Qle. lia. }
  split.
  - apply Qmult_le_0_compat; [exact H0|discriminate].
  - setoid_replace (100%Q) with (1 * 100)%Q at 2 by ring.
    apply Qmult_le_compat_r; [exact H1|discriminate].
Qed.

(** X14.  An accuracy that [test] reports lies between 0 and 100. *)
Theorem test_accuracy_range (p : Perceptron) (samples : matrix) (labels : list Z) (acc : Q) :
  test p samples labels = inr acc -> (0 <= acc <= 100)%Q.
Proof.
  unfold test, shape. cbn [fst].
  destruct labels as [|truth labels].
  - cbn [bind ret]. destruct (length (rows samples)) as [|n]; [discriminate|].
    destruct (weights p); [|discriminate].
    intros H. injection H as <-. exact (accuracy_range 0 n (Nat.le_0_l _)).
  - destruct (weights p) as [d|]; [|discriminate].
    destruct (count_correct d (truth :: labels) (rows samples) 0) as [e|c] eqn:Hc;
      [discriminate|].
    cbn [bind]. apply count_correct_bounds in Hc.
    destruct (length (rows samples)) as [|n]; [discriminate|].
    intros H. injection H as <-.
    assert (Hle : (c <= Datatypes.S n)%nat) by lia.
    exact (accuracy_range c n Hle).
Qed.

Lemma test_accuracy_range_witness :
  test trained_once two_points [0; 0]%Z = inr (1 / 2 * 100)%Q
  /\ (0 <= 1 / 2 * 100 <= 100)%Q.
Proof.
  assert (Hrun : test trained_once two_points [0; 0]%Z = inr (1 / 2 * 100)%Q)
    by (vm_compute; reflexivity).
  split; [exact Hrun|].
  apply (test_accuracy_range trained_once two_points [0; 0]%Z _ Hrun).
Defined.

(** X15.  On a matrix without rows [test] fails with
    [ZeroDivisionError] (the division by the number of samples), whatever
    the labels and the mapping. *)
Theorem test_no_samples (p : Perceptron) (d : dict) (samples : matrix) (labels : list Z) :
  weights p = Some d ->
  rows samples = [] ->
  test p samples labels = raise ZeroDivisionError.
Proof.
  intros Hd Hrows. unfold test, shape. rewrite Hd, Hrows. cbn [fst length].
  destruct labels as [|truth labels]; reflexivity.
Qed.

Lemma test_no_samples_witness :
  test trained_once no_rows [0; 1]%Z = raise ZeroDivisionError.
Proof.
  apply (test_no_samples trained_once
           [(0%Z, qv [1; -1]%Q); (1%Z, qv [-1; 1]%Q)] no_rows [0; 1]%Z);
    reflexivity.
Defined.

(** X16.  When classification returns the right label for every sample,
    [test] on as many labels as samples reports an accuracy of 100. *)
Theorem test_all_correct (p : Perceptron) (d : dict) (samples : matrix) (labels : list Z) :
  weights p = Some d ->
  rows samples <> [] ->
  length labels = length (rows samples) ->
  (forall i s l, nth_error (rows samples) i = Some s -> nth_error labels i = Some l ->
                 classify_sample d s = ret (label_value l)) ->
  exists acc, test p samples labels = ret acc /\ (acc == 100)%Q.
Proof.
  intros Hd Hne Hlen Hall. unfold test, shape. cbn [fst]. rewrite Hd.
  destruct labels as [|truth labels].
  - symmetry in Hlen. apply length_zero_iff_nil in Hlen. contradiction.
  - rewrite (count_correct_all d (truth :: labels) (rows samples) 0 Hall).
    cbn [bind ret]. rewrite Hlen, Nat.min_id, Nat.add_0_l.
    destruct (length (rows samples)) as [|n]; [discriminate|].
    eexists. split; [reflexivity|].
    pose proof (inject_nat_pos n) as Hpos.
    unfold Qdiv. rewrite Qmult_inv_r; [ring|].
    intros Hz. rewrite Hz in Hpos. discriminate.
Qed.

Lemma test_all_correct_witness :
  exists acc, test trained_once two_points [0; 1]%Z = ret acc /\ (acc == 100)%Q.
Proof.
  apply (test_all_correct trained_once [(0%Z, qv [1; -1]%Q); (1%Z, qv [-1; 1]%Q)]
           two_points [0; 1]%Z).
  - reflexivity.
  - discriminate.
  - reflexivity.
  - intros [|[|i]] s l Hs Hl; cbn in Hs, Hl.
    + injection Hs as <-. injection Hl as <-. vm_compute. reflexivity.
    + injection Hs as <-. injection Hl as <-. vm_compute. reflexivity.
    + destruct i; discriminate.
Defined.

(** ** Training *)

Lemma np_unique_nonempty (labels : list Z) : labels <> [] -> np_unique labels <> [].
Proof.
  destruct labels as [|x labels]; [congruence|]. intros _ H.
  assert (Hin : In x (np_unique (x :: labels))) by (apply np_unique_In; now left).
  rewrite H in Hin. destruct Hin.
Qed.

(** X17.  With labels, but fewer than samples, [train] fails with
    [IndexError] at the first class and leaves the model and the random
    generator as they were. *)
Theorem train_short_labels
    (dist : vec -> vec -> num) (approx : num -> num -> num -> bool) (norm : vec -> num)
    (fuel : nat) (p : Perceptron) (samples : matrix) (labels : list Z) (g : rng) :
  labels <> [] ->
  (length labels < length (rows samples))%nat ->
  train dist approx norm fuel p samples labels g = Some (raise IndexError, p, g).
Proof.
  intros Hne Hlen. unfold train.
  destruct (np_unique labels) as [|l todo] eqn:Hu.
  - exfalso. apply (np_unique_nonempty labels Hne Hu).
  - cbn [train_loop]. unfold normalize_features, shape.
    rewrite (normalize_rows_short l (rows samples) labels Hlen). reflexivity.
Qed.

Lemma train_short_labels_witness :
  train manhattan within norm1 100 trained_once three_points [0; 1]%Z (constant_rng 0)
  = Some (raise IndexError, trained_once, constant_rng 0).
Proof.
  apply train_short_labels.
  - discriminate.
  - cbn. lia.
Defined.

(** ** The criterion functions *)

Lemma num_add_not_negative (a b : num) :
  not_negative a -> not_negative b -> not_negative (num_add a b).
Proof.
  destruct a as [x| | |], b as [y| | |]; cbn; try tauto.
  intros Hx Hy. setoid_replace 0%Q with (0 + 0)%Q by ring.
  now apply Qplus_le_compat.
Qed.

Lemma fold_add_not_negative (l : list num) :
  forall a, not_negative a -> (forall v, In v l -> not_negative v) ->
  not_negative (fold_left num_add l a).
Proof.
  induction l as [|v l IH]; intros a Ha Hall; cbn [fold_left].
  - exact Ha.
  - apply IH.
    + apply num_add_not_negative; [exact Ha|apply Hall; now left].
    + intros u Hu. apply Hall. now right.
Qed.

Lemma num_sqr_not_negative (a : num) : not_negative (num_sqr a).
Proof.
  destruct a as [x| | |]; cbn; try exact I.
  change (0 <= x ^ 2)%Q. apply Qsqr_nonneg.
Qed.

Lemma num_half_not_negative (a : num) :
  not_negative a -> not_negative (num_mul (Num (1 # 2)) a).
Proof.
  destruct a as [x| | |]; cbn; try tauto.
  intros Hx. apply Qmult_le_0_compat; [discriminate|exact Hx].
Qed.

Lemma not_negative_not_lt (a : num) : not_negative a -> num_lt a (Num 0) = false.
Proof.
  destruct a as [x| | |]; cbn; try reflexivity; try tauto.
  intros Hx. now apply Qlt_bool_false.
Qed.

(** X19.  [criterion] is never negative, whatever the weights, the error
    samples, the margin and the norm used: it is a number at least 0,
    [+inf] or [nan], and never compares below 0. *)
Theorem criterion_nonneg (norm : vec -> num) (weights : vec) (errors : list vec)
    (margin : num) :
  not_negative (criterion norm weights errors margin)
  /\ num_lt (criterion norm weights errors margin) (Num 0) = false.
Proof.
  assert (H : not_negative (criterion norm weights errors margin)).
  { unfold criterion. apply num_half_not_negative. unfold np_sum.
    apply fold_add_not_negative; [cbn; apply Qle_refl|].
    intros v Hv. apply in_map_iff in Hv as [y [<- _]]. apply num_sqr_not_negative. }
  split; [exact H|apply not_negative_not_lt, H].
Qed.

Lemma num_add_nonneg (a b : num) :
  num_le (Num 0) a = true -> num_le (Num 0) b = true ->
  num_le (Num 0) (num_add a b) = true.
Proof.
  destruct a as [x| | |], b as [y| | |]; cbn; try discriminate; try reflexivity.
  intros Hx Hy. apply Qle_bool_iff in Hx, Hy. apply Qle_bool_iff.
  setoid_replace 0%Q with (0 + 0)%Q by ring.
  now apply Qplus_le_compat.
Qed.

Lemma fold_add_nonneg (l : list num) :
  forall a, num_le (Num 0) a = true ->
  (forall v, In v l -> num_le (Num 0) v = true) ->
  num_le (Num 0) (fold_left num_add l a) = true.
Proof.
  induction l as [|v l IH]; intros a Ha Hall; cbn [fold_left].
  - exact Ha.
  - apply IH.
    + apply num_add_nonneg; [exact Ha|apply Hall; now left].
    + intros u Hu. apply Hall. now right.
Qed.

Lemma num_neg_nonneg (a : num) :
  num_le a (Num 0) = true -> num_le (Num 0) (num_mul (Num (-1)) a) = true.
Proof.
  destruct a as [x| | |]; cbn; try discriminate; try reflexivity.
  intros Hx. apply Qle_bool_iff in Hx. apply Qle_bool_iff.
  setoid_replace (-1 * x)%Q with (- x)%Q by ring.
  setoid_replace 0%Q with (- 0)%Q by ring.
  now apply Qopp_le_compat.
Qed.

(** X20.  Over samples that the weights do not put on the positive side
    (net at most 0), [perceptron_criterion] is not negative. *)
Theorem perceptron_criterion_nonneg (weights : vec) (errors : list vec) :
  (forall y, In y errors -> num_le (dot weights y) (Num 0) = true) ->
  num_le (Num 0) (perceptron_criterion weights errors) = true.
Proof.
  intros Hall. unfold perceptron_criterion, np_sum.
  apply fold_add_nonneg; [reflexivity|].
  intros v Hv. apply in_map_iff in Hv as [y [<- Hy]].
  apply num_neg_nonneg, Hall, Hy.
Qed.

Lemma perceptron_criterion_nonneg_witness :
  num_le (Num 0) (perceptron_criterion (qv [0; 0]) [qv [1; 2]; qv [-1; -1]]) = true.
Proof.
  apply perceptron_criterion_nonneg.
  intros y [<-|[<-|[]]]; reflexivity.
Defined.

(** ** What a pass of fixed_increment adds *)

Lemma fi_fold_adds (samples : list vec) :
  forall (w : vec) (errors : list vec),
  exists added,
    snd (fold_left fi_visit samples (w, errors)) = errors ++ added
    /\ fst (fold_left fi_visit samples (w, errors)) = fold_left vadd added w
    /\ incl added samples.
Proof.
  induction samples as [|y samples IH]; intros w errors; cbn [fold_left].
  - exists []. cbn. rewrite app_nil_r. repeat split. intros z [].
  - unfold fi_visit at 2 4.
    destruct (num_le (np_sum (vmul w y)) (Num 0)).
    + destruct (IH (vadd w y) (errors ++ [y])) as (added & Hs & Hf & Hincl).
      exists (y :: added). rewrite Hs, Hf, <- app_assoc. repeat split.
      intros z [<-|Hz]; [now left|right; apply Hincl, Hz].
    + destruct (IH w errors) as (added & Hs & Hf & Hincl).
      exists added. repeat split; try assumption.
      intros z Hz. right. apply Hincl, Hz.
Qed.

(** X21.  The weights a pass of [fixed_increment] leaves are the weights
    it started from with the pass's error samples added one after the other,
    and every error it records is one of the samples. *)
Theorem fi_pass_adds_errors (samples : list vec) (w : vec) :
  fst (fi_pass samples w) = fold_left vadd (snd (fi_pass samples w)) w
  /\ incl (snd (fi_pass samples w)) samples.
Proof.
  unfold fi_pass. destruct (fi_fold_adds samples w []) as (added & Hs & Hf & Hincl).
  rewrite Hs, Hf. cbn [app]. split; [reflexivity|exact Hincl].
Qed.

(** ** Training always ends *)

Lemma rule_method_total
    (dist : vec -> vec -> num) (approx : num -> num -> num -> bool) (norm : vec -> num)
    (r : TrainingRule) (fuel : nat) (normalized : matrix) (g : rng) :
  (100002 <= Z.of_nat fuel)%Z ->
  exists res g', rule_method dist approx norm r fuel normalized g = Some (res, g').
Proof.
  intros Hfuel. destruct r; unfold rule_method.
  - destruct (@fixed_increment_run_total dist fuel normalized (Num (3 # 1000000)) Hfuel)
      as [t [Ht _]].
    unfold fixed_increment. rewrite Ht. cbn [option_map]. eexists. eexists. reflexivity.
  - unfold batch_relaxation.
    rewrite (batch_relaxation_run_valid dist approx norm fuel normalized
               (Num (2 # 100)) (Num (3 # 2)) (Num (1 # 1000)) g eq_refl eq_refl).
    destruct (length (rows normalized)).
    + eexists. eexists. reflexivity.
    + destruct (@br_loop_terminates dist approx norm (rows normalized)
                  (Num (2 # 100)) (Num (3 # 2)) fuel
                  (br_init (drawn g (features normalized)))) as [res [Hres _]].
      * cbn. lia.
      * cbn. lia.
      * rewrite Hres. eexists. eexists. reflexivity.
Qed.

(** X22.  With fuel for 100002 passes per class, [train] ends for either
    rule and any data, by completing or by raising. *)
Theorem train_terminates
    (dist : vec -> vec -> num) (approx : num -> num -> num -> bool) (norm : vec -> num)
    (fuel : nat) (p : Perceptron) (samples : matrix) (labels : list Z) (g : rng) :
  (100002 <= Z.of_nat fuel)%Z ->
  exists res p' g', train dist approx norm fuel p samples labels g = Some (res, p', g').
Proof.
  intros Hfuel. unfold train. revert p g.
  induction (np_unique labels) as [|l todo IH]; intros p g; cbn [train_loop].
  - eexists. eexists. eexists. reflexivity.
  - destruct (normalize_features l samples labels) as [e|normalized].
    + eexists. eexists. eexists. reflexivity.
    + destruct (rule_method_total dist approx norm (rule p) fuel normalized g Hfuel)
        as (res & g' & Hm).
      rewrite Hm. destruct res as [e|w].
      * eexists. eexists. eexists. reflexivity.
      * destruct (weights p) as [d|].
        -- apply IH.
        -- eexists. eexists. eexists. reflexivity.
Qed.

Lemma train_terminates_witness :
  exists res p' g',
    train manhattan within norm1 (Z.to_nat 100002) (init BatchRelaxation OneAgainstRest None)
      two_points [0; 1]%Z (constant_rng 0) = Some (res, p', g').
Proof.
  apply train_terminates. lia.
Defined.

(** ** What training takes from the random generator *)

Lemma normalize_features_columns (cls : Z) (samples normalized : matrix) (labels : list Z) :
  normalize_features cls samples labels = inr normalized ->
  features normalized = (features samples + 1)%nat.
Proof.
  unfold normalize_features, shape.
  destruct (normalize_rows cls (rows samples) labels) as [e|rs]; [discriminate|].
  cbn [bind ret]. intros H. injection H as <-. reflexivity.
Qed.

Lemma train_loop_draws
    (dist : vec -> vec -> num) (approx : num -> num -> num -> bool) (norm : vec -> num)
    (fuel : nat) (samples : matrix) (labels : list Z) :
  forall (todo : list Z) (p p' : Perceptron) (g g' : rng),
  train_loop dist approx norm fuel samples labels todo p g = Some (ret tt, p', g') ->
  g' = match rule p with
       | FixedIncrement => g
       | BatchRelaxation =>
           Rng (draws g) (pos g + length todo * (features samples + 1))
       end.
Proof.
  induction todo as [|l todo IH]; intros p p' g g' H; cbn [train_loop] in H.
  - injection H as _ <-. destruct (rule p); [reflexivity|].
    cbn [length Nat.mul]. rewrite Nat.add_0_r. destruct g; reflexivity.
  - destruct (normalize_features l samples labels) as [e|normalized] eqn:Hn; [discriminate|].
    destruct (rule_method dist approx norm (rule p) fuel normalized g)
      as [[[e|w] g1]|] eqn:Hm; [discriminate| |discriminate].
    destruct (weights p) as [d|]; [|discriminate].
    apply IH in H. cbn [rule] in H.
    destruct (rule p); unfold rule_method in Hm.
    + destruct (fixed_increment dist fuel normalized (Num (3 # 1000000))); [|discriminate].
      cbn [option_map] in Hm. injection Hm as _ <-. exact H.
    + apply (batch_relaxation_advances dist approx norm fuel normalized
               (Num (2 # 100)) (Num (3 # 2)) (Num (1 # 1000)) g g1 (inr w)
               eq_refl eq_refl) in Hm.
      rewrite (normalize_features_columns l samples normalized labels Hn) in Hm.
      rewrite H, Hm. cbn [draws pos length]. f_equal. lia.
Qed.

(** X24.  A training call that completes has left the random generator
    untouched under the fixed-increment rule, and under the batch-relaxation
    rule has drawn from it one number per column of the augmented matrix for
    every distinct label. *)
Theorem train_draws
    (dist : vec -> vec -> num) (approx : num -> num -> num -> bool) (norm : vec -> num)
    (fuel : nat) (p p' : Perceptron) (samples : matrix) (labels : list Z) (g g' : rng) :
  train dist approx norm fuel p samples labels g = Some (ret tt, p', g') ->
  g' = match rule p with
       | FixedIncrement => g
       | BatchRelaxation =>
           Rng (draws g) (pos g + length (np_unique labels) * (features samples + 1))
       end.
Proof.
  apply train_loop_draws.
Qed.

Lemma train_draws_witness :
  Rng (fun _ => (1 # 2)%Q) 2
  = match rule (init BatchRelaxation OneAgainstRest None) with
    | FixedIncrement => constant_rng (1 # 2)
    | BatchRelaxation =>
        Rng (draws (constant_rng (1 # 2)))
          (pos (constant_rng (1 # 2))
           + length (np_unique [7; 7]%Z) * (features far_points + 1))
    end.
Proof.
  apply (train_draws manhattan within norm1 1 (init BatchRelaxation OneAgainstRest None)
           trained_far far_points [7; 7]%Z (constant_rng (1 # 2))).
  vm_compute. reflexivity.
Defined.
